(** * The per-task socket descriptor table of nuttx/net/net-sockets.c

    A shallow embedding of [net_alloclist], [net_addreflist],
    [net_releaselist], [sockfd_allocate], [sockfd_release] and
    [sockfd_socket], and the properties the specification states about
    them.

    The C functions work on a socket list that lives in kernel memory, is
    found through the calling task and is guarded by a semaphore.  They are
    embedded as computations in a state-and-error monad over a [kernel]
    record: the heap of socket lists, the caller's list pointer, [errno], the
    interrupt flag, and the results that the coming [sem_wait] calls will
    give (the part of the environment the code cannot control). *)

From Stdlib Require Import ZArith Lia.
From stdpp Require Import base option list gmap.

(** ** C integers *)

(** Value that a signed field of [bits] bits holds after [x] is stored
    in it (two's complement). *)
Definition wrap_signed (bits x : Z) : Z :=
  ((x + 2 ^ (bits - 1)) mod 2 ^ bits - 2 ^ (bits - 1))%Z.

(** [int] is 32 bits wide on the targets of this tree. *)
Definition INT_BITS : Z := 32.
Definition INT_MIN : Z := (- 2 ^ 31)%Z.
Definition INT_MAX : Z := (2 ^ 31 - 1)%Z.
Definition to_int (x : Z) : Z := wrap_signed INT_BITS x.
Definition int_range (x : Z) : Prop := (INT_MIN <= x <= INT_MAX)%Z.

Definition OK : Z := 0.
Definition ERROR : Z := (-1)%Z.
Definition EINTR : Z := 4.

(** Addresses of heap blocks; a C pointer is an [option ptr], [None] being
    NULL. *)
Abbreviation ptr := positive.

(** What one call of [sem_wait] gives: the semaphore was taken, or the call
    failed with the given [errno]. *)
Inductive sem_result : Type :=
| SemOK
| SemErr (errno : Z).

(** Calls to the collaborators that manage the life of a list. *)
Inductive event : Type :=
| EvSemInit (p : ptr) (value : Z)
| EvSemDestroy (p : ptr)
| EvFree (p : ptr).

(** Why a computation did not return. *)
Inductive stop : Type :=
| AssertFailed   (* an ASSERT did not hold *)
| BadAccess      (* a pointer that is not a live block was dereferenced *)
| Waiting.       (* sem_wait has not returned: no further result is known *)

Section SocketTable.

(** Configuration and declarations that nuttx/net.h and the board
    configuration supply. *)
Variable CONFIG_NSOCKET_DESCRIPTORS : nat.
Variable __SOCKFD_OFFSET : Z.
(** The fields of [struct socket] other than [s_crefs], and their all-zero
    image. *)
Variable conn : Type.
Variable conn_zero : conn.
(** Width of the signed field [sl_crefs]. *)
Variable sl_crefs_bits : Z.
(** Whether ASSERT is compiled in. *)
Variable CONFIG_DEBUG : bool.

(** ** Data *)

Record socket : Type := mk_socket {
  s_crefs : Z;
  s_conn : conn
}.

Record socketlist : Type := mk_socketlist {
  sl_sem : Z;
  sl_crefs : Z;
  sl_sockets : list socket
}.

Record kernel : Type := mk_kernel {
  k_heap : gmap positive socketlist;  (* the live socket lists *)
  k_sockets : option positive;        (* what sched_getsockets() returns *)
  k_errno : Z;
  k_semwait : list sem_result;        (* results of the coming sem_wait calls *)
  k_mem : nat;                        (* blocks kzmalloc can still hand out *)
  k_irq : bool;                       (* interrupts enabled *)
  k_log : list event
}.

(** memset(psock, 0, sizeof(struct socket)) *)
Definition socket_zero : socket := mk_socket 0 conn_zero.

(** A block as kzmalloc returns it. *)
Definition socketlist_zero : socketlist :=
  mk_socketlist 0 0 (replicate CONFIG_NSOCKET_DESCRIPTORS socket_zero).

Definition set_s_crefs (c : Z) (s : socket) : socket :=
  mk_socket c (s_conn s).
Definition set_sl_sem (v : Z) (l : socketlist) : socketlist :=
  mk_socketlist v (sl_crefs l) (sl_sockets l).
Definition set_sl_crefs (c : Z) (l : socketlist) : socketlist :=
  mk_socketlist (sl_sem l) c (sl_sockets l).
Definition set_sl_sockets (ss : list socket) (l : socketlist) : socketlist :=
  mk_socketlist (sl_sem l) (sl_crefs l) ss.

Definition set_k_heap (h : gmap positive socketlist) (k : kernel) : kernel :=
  mk_kernel h (k_sockets k) (k_errno k) (k_semwait k) (k_mem k) (k_irq k) (k_log k).
Definition set_k_errno (e : Z) (k : kernel) : kernel :=
  mk_kernel (k_heap k) (k_sockets k) e (k_semwait k) (k_mem k) (k_irq k) (k_log k).
Definition set_k_semwait (tr : list sem_result) (k : kernel) : kernel :=
  mk_kernel (k_heap k) (k_sockets k) (k_errno k) tr (k_mem k) (k_irq k) (k_log k).
Definition set_k_mem (n : nat) (k : kernel) : kernel :=
  mk_kernel (k_heap k) (k_sockets k) (k_errno k) (k_semwait k) n (k_irq k) (k_log k).
Definition set_k_irq (b : bool) (k : kernel) : kernel :=
  mk_kernel (k_heap k) (k_sockets k) (k_errno k) (k_semwait k) (k_mem k) b (k_log k).
Definition add_k_log (e : event) (k : kernel) : kernel :=
  mk_kernel (k_heap k) (k_sockets k) (k_errno k) (k_semwait k) (k_mem k) (k_irq k)
            (k_log k ++ [e]).

(** ** The monad of kernel code *)

Inductive outcome (A : Type) : Type :=
| Ret (a : A) (k : kernel)
| Stop (s : stop).
Arguments Ret {A} a k.
Arguments Stop {A} s.

Definition M (A : Type) : Type := kernel -> outcome A.

Definition ret {A} (a : A) : M A := fun k => Ret a k.
Definition bind {A B} (m : M A) (f : A -> M B) : M B :=
  fun k => match m k with
           | Ret a k' => f a k'
           | Stop s => Stop s
           end.
Definition halt {A} (s : stop) : M A := fun _ => Stop s.
Definition gets {A} (f : kernel -> A) : M A := fun k => Ret (f k) k.
Definition modify (f : kernel -> kernel) : M unit := fun k => Ret tt (f k).

Notation "x <- m ;; f" := (bind m (fun x => f))
  (at level 100, m at next level, right associativity).
Notation "m ;; f" := (bind m (fun _ => f))
  (at level 100, right associativity).

(** ** Memory *)

(** Read [*p]. *)
Definition load (p : positive) : M socketlist :=
  fun k => match k_heap k !! p with
           | Some l => Ret l k
           | None => Stop BadAccess
           end.

(** Write [*p]. *)
Definition store (p : positive) (l : socketlist) : M unit :=
  fun k => match k_heap k !! p with
           | Some _ => Ret tt (set_k_heap (<[p:=l]> (k_heap k)) k)
           | None => Stop BadAccess
           end.

(** Read and write [p->sl_sockets[i]]. *)
Definition load_socket (p : positive) (i : nat) : M socket :=
  l <- load p ;;
  match sl_sockets l !! i with
  | Some s => ret s
  | None => halt BadAccess
  end.

Definition store_socket (p : positive) (i : nat) (s : socket) : M unit :=
  l <- load p ;;
  if decide (i < length (sl_sockets l))
  then store p (set_sl_sockets (<[i:=s]> (sl_sockets l)) l)
  else halt BadAccess.

(** kzmalloc(sizeof(struct socketlist)): a zeroed block at an unused
    address, or NULL when no memory is left. *)
Definition kzmalloc : M (option positive) :=
  fun k => match k_mem k with
           | O => Ret None k
           | S n =>
               let p := fresh (dom (k_heap k)) in
               Ret (Some p)
                   (set_k_mem n (set_k_heap (<[p:=socketlist_zero]> (k_heap k)) k))
           end.

(** sched_free(list) *)
Definition sched_free (p : positive) : M unit :=
  fun k => match k_heap k !! p with
           | Some _ =>
               Ret tt (add_k_log (EvFree p)
                         (set_k_mem (S (k_mem k))
                            (set_k_heap (delete p (k_heap k)) k)))
           | None => Stop BadAccess
           end.

(** ** Interrupts, errno, the task *)

Definition irqsave : M bool :=
  fun k => Ret (k_irq k) (set_k_irq false k).
Definition irqrestore (flags : bool) : M unit := modify (set_k_irq flags).

Definition get_errno : M Z := gets k_errno.

Definition sched_getsockets : M (option positive) := gets k_sockets.

Definition ASSERT (c : bool) : M unit :=
  if CONFIG_DEBUG && negb c then halt AssertFailed else ret tt.

(** ** Semaphores *)

Definition sem_init (p : positive) (value : Z) : M unit :=
  l <- load p ;;
  store p (set_sl_sem value l) ;;
  modify (add_k_log (EvSemInit p value)).

Definition sem_destroy (p : positive) : M unit :=
  _ <- load p ;;
  modify (add_k_log (EvSemDestroy p)).

(** sem_wait(&p->sl_sem): the environment decides the result; a failed
    call leaves the semaphore alone and sets errno. *)
Definition sem_wait (p : positive) : M Z :=
  l <- load p ;;
  tr <- gets k_semwait ;;
  match tr with
  | [] => halt Waiting
  | SemOK :: tr' =>
      modify (set_k_semwait tr') ;;
      store p (set_sl_sem (sl_sem l - 1) l) ;;
      ret OK
  | SemErr e :: tr' =>
      modify (set_k_semwait tr') ;;
      modify (set_k_errno e) ;;
      ret ERROR
  end.

Definition sem_post (p : positive) : M Z :=
  l <- load p ;;
  store p (set_sl_sem (sl_sem l + 1) l) ;;
  ret OK.

(** ** net-sockets.c *)

(** The loop of [_net_semtake]; every turn uses up one result of
    [sem_wait], so [fuel] bounds the turns. *)
Fixpoint _net_semtake_loop (fuel : nat) (list : positive) : M unit :=
  match fuel with
  | O => halt Waiting
  | S fuel' =>
      r <- sem_wait list ;;
      if decide (r ≠ 0%Z)
      then e <- get_errno ;;
           ASSERT (bool_decide (e = EINTR)) ;;
           _net_semtake_loop fuel' list
      else ret tt
  end.

Definition _net_semtake (list : positive) : M unit :=
  fun k => _net_semtake_loop (S (length (k_semwait k))) list k.

Definition _net_semgive (list : positive) : M unit :=
  _ <- sem_post list ;; ret tt.

Definition net_alloclist : M (option positive) :=
  list <- kzmalloc ;;
  match list with
  | Some p =>
      l <- load p ;;
      store p (set_sl_crefs (wrap_signed sl_crefs_bits 1) l) ;;
      sem_init p 1 ;;
      ret list
  | None => ret list
  end.

Definition net_addreflist (list : option positive) : M Z :=
  match list with
  | Some p =>
      flags <- irqsave ;;
      l <- load p ;;
      store p (set_sl_crefs (wrap_signed sl_crefs_bits (sl_crefs l + 1)) l) ;;
      irqrestore flags
  | None => ret tt
  end ;;
  ret OK.

Definition net_releaselist (list : option positive) : M Z :=
  match list with
  | Some p =>
      flags <- irqsave ;;
      l <- load p ;;
      let crefs := wrap_signed sl_crefs_bits (sl_crefs l - 1) in
      store p (set_sl_crefs crefs l) ;;
      irqrestore flags ;;
      if decide (crefs <= 0)%Z
      then sem_destroy p ;; sched_free p
      else ret tt
  | None => ret tt
  end ;;
  ret OK.

(** The for loop of [sockfd_allocate], entered at index [i] with [n] turns
    left; [Some fd] when the body returned [fd], [None] when the loop ran
    to its end. *)
Fixpoint sockfd_allocate_loop (n : nat) (list : positive) (i : nat)
  : M (option Z) :=
  match n with
  | O => ret None
  | S n' =>
      s <- load_socket list i ;;
      if decide (s_crefs s = 0%Z)
      then store_socket list i socket_zero ;;
           s' <- load_socket list i ;;
           store_socket list i (set_s_crefs 1 s') ;;
           _net_semgive list ;;
           ret (Some (to_int (Z.of_nat i + __SOCKFD_OFFSET)))
      else sockfd_allocate_loop n' list (S i)
  end.

Definition sockfd_allocate : M Z :=
  list <- sched_getsockets ;;
  match list with
  | Some p =>
      _net_semtake p ;;
      r <- sockfd_allocate_loop CONFIG_NSOCKET_DESCRIPTORS p 0 ;;
      match r with
      | Some fd => ret fd
      | None => _net_semgive p ;; ret ERROR
      end
  | None => ret ERROR
  end.

(** A [struct socket *] is the list it points into and the index of the
    slot. *)
Definition sockfd_socket (sockfd : Z) : M (option (positive * nat)) :=
  let ndx := to_int (sockfd - __SOCKFD_OFFSET) in
  if decide (0 <= ndx /\ ndx < Z.of_nat CONFIG_NSOCKET_DESCRIPTORS)%Z
  then list <- sched_getsockets ;;
       match list with
       | Some p => ret (Some (p, Z.to_nat ndx))
       | None => ret None
       end
  else ret None.

Definition sockfd_release (sockfd : Z) : M unit :=
  psock <- sockfd_socket sockfd ;;
  match psock with
  | Some (q, i) =>
      list <- sched_getsockets ;;
      match list with
      | Some p =>
          _net_semtake p ;;
          s <- load_socket q i ;;
          (if decide (1 < s_crefs s)%Z
           then store_socket q i (set_s_crefs (to_int (s_crefs s - 1)) s)
           else store_socket q i socket_zero) ;;
          _net_semgive p
      | None => ret tt
      end
  | None => ret tt
  end.

(** ** Notions used in the statements *)

(** The kernel after an operation that held the semaphore of [p] and left
    the list [l'] there; [e] is errno and [tr] the results of [sem_wait]
    still to come. *)
Definition after (p : positive) (l' : socketlist) (e : Z)
    (tr : list sem_result) (k : kernel) : kernel :=
  mk_kernel (<[p:=l']> (k_heap k)) (k_sockets k) e tr
            (k_mem k) (k_irq k) (k_log k).

(** The kernel once the caller holds the semaphore of [p]. *)
Definition taken (p : positive) (l : socketlist) (e : Z)
    (tr : list sem_result) (k : kernel) : kernel :=
  after p (set_sl_sem (sl_sem l - 1) l) e tr k.

(** The semaphore is taken after [n] waits that a signal interrupted. *)
Definition acquires (n : nat) (tr : list sem_result) (k : kernel) : Prop :=
  k_semwait k = replicate n (SemErr EINTR) ++ SemOK :: tr.

(** errno after [n] interrupted waits. *)
Definition errno_after (n : nat) (k : kernel) : Z :=
  match n with O => k_errno k | S _ => EINTR end.

(** The slot that [sockfd_allocate] leaves behind. *)
Definition socket_taken : socket := mk_socket 1 conn_zero.

(** [int ndx = sockfd - __SOCKFD_OFFSET] *)
Definition sockfd_ndx (sockfd : Z) : Z := to_int (sockfd - __SOCKFD_OFFSET).

Definition valid_ndx (ndx : Z) : Prop :=
  (0 <= ndx /\ ndx < Z.of_nat CONFIG_NSOCKET_DESCRIPTORS)%Z.

(** The slot that [sockfd_release] leaves where [s] was. *)
Definition released (s : socket) : socket :=
  if decide (1 < s_crefs s)%Z
  then set_s_crefs (to_int (s_crefs s - 1)) s
  else socket_zero.

(** The configuration keeps every descriptor inside [int]. *)
Definition config_ok : Prop :=
  (0 <= __SOCKFD_OFFSET /\
   __SOCKFD_OFFSET + Z.of_nat CONFIG_NSOCKET_DESCRIPTORS <= INT_MAX + 1)%Z.

(** The typing and the data invariant of the slots of a list: the array has
    its declared size, every count is an [int], and a slot with count 0 is
    all zero. *)
Definition list_inv (l : socketlist) : Prop :=
  length (sl_sockets l) = CONFIG_NSOCKET_DESCRIPTORS /\
  forall i s, sl_sockets l !! i = Some s ->
    int_range (s_crefs s) /\ (s_crefs s = 0%Z -> s = socket_zero).

Definition kernel_inv (k : kernel) : Prop :=
  forall p l, k_heap k !! p = Some l -> list_inv l.

(** Two kernels that differ in errno at most. *)
Definition same_but_errno (k1 k2 : kernel) : Prop :=
  k_heap k1 = k_heap k2 /\ k_sockets k1 = k_sockets k2 /\
  k_semwait k1 = k_semwait k2 /\ k_mem k1 = k_mem k2 /\
  k_irq k1 = k_irq k2 /\ k_log k1 = k_log k2.

Inductive op : Type :=
| OpAllocate
| OpRelease (sockfd : Z).

(** The argument of a release is an [int]. *)
Definition op_ok (o : op) : Prop :=
  match o with
  | OpAllocate => True
  | OpRelease sockfd => int_range sockfd
  end.

(** Run the operations in order; [live] are the descriptors that allocate
    has returned and that have not been released since. *)
Fixpoint run (ops : list op) (live : list Z) : M (list Z) :=
  match ops with
  | [] => ret live
  | OpAllocate :: ops' =>
      fd <- sockfd_allocate ;;
      run ops' (if decide (fd = ERROR) then live else fd :: live)
  | OpRelease sockfd :: ops' =>
      sockfd_release sockfd ;;
      run ops' (filter (fun fd => fd <> sockfd) live)
  end.

(** Every live descriptor names a slot of the caller's list that holds
    exactly the reference allocate gave it. *)
Definition live_inv (p : positive) (k : kernel) (live : list Z) : Prop :=
  exists l,
    k_sockets k = Some p /\ k_heap k !! p = Some l /\
    length (sl_sockets l) = CONFIG_NSOCKET_DESCRIPTORS /\
    NoDup live /\
    forall fd, fd ∈ live ->
      exists i s,
        fd = (Z.of_nat i + __SOCKFD_OFFSET)%Z /\
        sl_sockets l !! i = Some s /\ s_crefs s = 1%Z.

(** [n] calls of [m], one after the other. *)
Fixpoint repeat_call {A} (n : nat) (m : M A) : M unit :=
  match n with
  | O => ret tt
  | S n' => _ <- m ;; repeat_call n' m
  end.

(** The number of slots in use. *)
Definition in_use (ss : list socket) : nat :=
  length (filter (fun s => s_crefs s <> 0%Z) ss).

(** What a call on the descriptors of the list at [p] must leave alone:
    the caller's list pointer, the memory pool, the interrupt flag, the
    calls logged, every other list, and of the list at [p] its semaphore
    count, its reference count and its number of slots. *)
Definition frame (p : positive) (k k' : kernel) : Prop :=
  k_sockets k' = k_sockets k /\ k_mem k' = k_mem k /\
  k_irq k' = k_irq k /\ k_log k' = k_log k /\
  (forall q, q <> p -> k_heap k' !! q = k_heap k !! q) /\
  (forall l, k_heap k !! p = Some l ->
     exists l', k_heap k' !! p = Some l' /\
       sl_sem l' = sl_sem l /\ sl_crefs l' = sl_crefs l /\
       length (sl_sockets l') = length (sl_sockets l)).

(** ** Basic facts *)

Lemma wrap_signed_small (bits x : Z) :
  (0 < bits)%Z ->
  (- 2 ^ (bits - 1) <= x < 2 ^ (bits - 1))%Z ->
  wrap_signed bits x = x.
Proof.
  intros Hb Hx. unfold wrap_signed.
  replace (2 ^ bits)%Z with (2 * 2 ^ (bits - 1))%Z.
  - rewrite Z.mod_small; lia.
  - rewrite <- Z.pow_succ_r by lia. f_equal. lia.
Qed.

Lemma to_int_small (x : Z) : int_range x -> to_int x = x.
Proof.
  unfold int_range, INT_MIN, INT_MAX, to_int, INT_BITS. intros Hx.
  apply wrap_signed_small; simpl; lia.
Qed.

(** Reduce field reads of explicit records, and nothing else. *)
Ltac ksimpl :=
  cbn [k_heap k_sockets k_errno k_semwait k_mem k_irq k_log
       set_k_heap set_k_errno set_k_semwait set_k_mem set_k_irq add_k_log
       sl_sem sl_crefs sl_sockets set_sl_sem set_sl_crefs set_sl_sockets
       s_crefs s_conn set_s_crefs] in *.

(** Turn every kernel into an explicit record. *)
Ltac kunfold :=
  cbv beta delta [set_k_heap set_k_errno set_k_semwait set_k_mem set_k_irq
                  add_k_log] in *;
  ksimpl.

Ltac munfold :=
  cbv beta delta [bind ret halt gets modify load store load_socket
    store_socket sem_wait sem_post sem_init sem_destroy sched_free
    irqsave irqrestore get_errno sched_getsockets ASSERT _net_semgive] in *.

(** Run the code on the hypotheses at hand. *)
Ltac kred :=
  repeat first
    [ progress ksimpl
    | match goal with H : _ !! _ = Some _ |- _ => rewrite H end
    | rewrite lookup_insert_eq
    | rewrite length_insert
    | rewrite list_lookup_insert_eq by (done || lia)
    | rewrite decide_True by (done || lia)
    | rewrite decide_False by (done || lia) ].

Lemma _net_semtake_loop_acquires (p : positive) (l : socketlist)
    (tr : list sem_result) (n fuel : nat) (k : kernel) :
  k_heap k !! p = Some l ->
  acquires n tr k ->
  n < fuel ->
  _net_semtake_loop fuel p k = Ret tt (taken p l (errno_after n k) tr k).
Proof.
  unfold acquires.
  revert fuel k. induction n as [|n IH]; intros fuel k Hp Htr Hf.
  - destruct fuel as [|fuel]; [lia|].
    cbn [_net_semtake_loop replicate app] in *. munfold. ksimpl.
    rewrite Hp, Htr. ksimpl. rewrite Hp. reflexivity.
  - destruct fuel as [|fuel]; [lia|].
    cbn [_net_semtake_loop replicate app] in *. munfold. ksimpl.
    rewrite Hp, Htr. ksimpl.
    rewrite decide_True by (unfold ERROR; lia).
    rewrite bool_decide_eq_true_2 by reflexivity.
    rewrite andb_false_r.
    erewrite IH; ksimpl; eauto; [|lia].
    unfold taken, after, errno_after. ksimpl. destruct n; reflexivity.
Qed.

Lemma _net_semtake_acquires (p : positive) (l : socketlist)
    (tr : list sem_result) (n : nat) (k : kernel) :
  k_heap k !! p = Some l ->
  acquires n tr k ->
  _net_semtake p k = Ret tt (taken p l (errno_after n k) tr k).
Proof.
  intros Hp Htr. unfold _net_semtake.
  apply _net_semtake_loop_acquires; [done..|].
  rewrite Htr, length_app, length_replicate. lia.
Qed.

(** While every wait is interrupted, [_net_semtake] goes on waiting. *)
Lemma _net_semtake_loop_waits (p : positive) (l : socketlist) (n fuel : nat)
    (k : kernel) :
  k_heap k !! p = Some l ->
  k_semwait k = replicate n (SemErr EINTR) ->
  _net_semtake_loop fuel p k = Stop Waiting.
Proof.
  revert fuel k. induction n as [|n IH]; intros [|fuel] k Hp Htr; [done| |done|].
  - cbn [_net_semtake_loop replicate] in *. munfold. by rewrite Hp, Htr.
  - cbn [_net_semtake_loop replicate] in *. munfold. rewrite Hp, Htr. ksimpl.
    rewrite decide_True by (unfold ERROR; lia).
    rewrite bool_decide_eq_true_2 by reflexivity.
    rewrite andb_false_r. by apply IH.
Qed.

(** Whenever [_net_semtake] returns, the semaphore is held and nothing
    but errno and the pending results has changed. *)
Lemma _net_semtake_loop_inv (p : positive) (fuel : nat) (k k1 : kernel) :
  _net_semtake_loop fuel p k = Ret tt k1 ->
  exists l e tr, k_heap k !! p = Some l /\ k1 = taken p l e tr k.
Proof.
  revert k. induction fuel as [|fuel IH]; intros k Hrun; [done|].
  cbn [_net_semtake_loop] in Hrun. munfold.
  destruct (k_heap k !! p) as [l|] eqn:Hp; [|done].
  destruct (k_semwait k) as [|[|e] tr] eqn:Htr; [done| |]; ksimpl.
  - rewrite Hp in Hrun. ksimpl. rewrite decide_False in Hrun by (unfold OK; lia).
    exists l, (k_errno k), tr. split; [done|]. inversion Hrun. reflexivity.
  - rewrite decide_True in Hrun by (unfold ERROR; lia). ksimpl.
    destruct (CONFIG_DEBUG && negb (bool_decide (e = EINTR))); [done|].
    apply IH in Hrun as (l' & e' & tr' & Hp' & ->). ksimpl.
    rewrite Hp in Hp'. injection Hp' as <-. exists l, e', tr'. split; [done|]. reflexivity.
Qed.

Lemma _net_semtake_inv (p : positive) (k k1 : kernel) :
  _net_semtake p k = Ret tt k1 ->
  exists l e tr, k_heap k !! p = Some l /\ k1 = taken p l e tr k.
Proof. apply _net_semtake_loop_inv. Qed.

Lemma sockfd_allocate_loop_full (p : positive) (l : socketlist)
    (k : kernel) (n i : nat) :
  k_heap k !! p = Some l ->
  i + n <= length (sl_sockets l) ->
  (forall j s, i <= j < i + n ->
     sl_sockets l !! j = Some s -> s_crefs s <> 0%Z) ->
  sockfd_allocate_loop n p i k = Ret None k.
Proof.
  revert i. induction n as [|n IH]; intros i Hp Hlen Hfull; [done|].
  cbn [sockfd_allocate_loop]. munfold. rewrite Hp.
  destruct (lookup_lt_is_Some_2 (sl_sockets l) i) as [s Hs]; [lia|].
  ksimpl. rewrite Hs. ksimpl.
  rewrite decide_False by (apply (Hfull i); [lia|done]).
  apply IH; [done|lia|]. intros j s' Hj. apply Hfull. lia.
Qed.

Lemma sockfd_allocate_loop_found (p : positive) (l : socketlist)
    (k : kernel) (m n i : nat) (s : socket) :
  k_heap k !! p = Some l ->
  sl_sockets l !! (i + m) = Some s ->
  s_crefs s = 0%Z ->
  (forall j s', i <= j < i + m ->
     sl_sockets l !! j = Some s' -> s_crefs s' <> 0%Z) ->
  m < n ->
  sockfd_allocate_loop n p i k =
    Ret (Some (to_int (Z.of_nat (i + m) + __SOCKFD_OFFSET)))
        (set_k_heap
           (<[p:=mk_socketlist (sl_sem l + 1) (sl_crefs l)
                   (<[i + m:=socket_taken]> (sl_sockets l))]> (k_heap k)) k).
Proof.
  revert n i. induction m as [|m IH]; intros n i Hp Hs Hfree Hused Hn.
  - destruct n as [|n]; [lia|]. rewrite Nat.add_0_r in *.
    pose proof (lookup_lt_Some _ _ _ Hs) as Hi.
    cbn [sockfd_allocate_loop]. munfold. kred.
    rewrite list_insert_insert_eq, !insert_insert_eq. reflexivity.
  - destruct n as [|n]; [lia|].
    cbn [sockfd_allocate_loop]. munfold. rewrite Hp.
    destruct (lookup_lt_is_Some_2 (sl_sockets l) i) as [s0 Hs0].
    { apply lookup_lt_Some in Hs. lia. }
    ksimpl. rewrite Hs0. ksimpl.
    rewrite decide_False by (apply (Hused i); [lia|done]).
    replace (i + S m) with (S i + m) in * by lia.
    apply IH; [done..| |lia]. intros j s' Hj. apply Hused. lia.
Qed.

Lemma sockfd_allocate_loop_inv (p : positive) (l : socketlist)
    (k k' : kernel) (n i : nat) (r : option Z) :
  k_heap k !! p = Some l ->
  sockfd_allocate_loop n p i k = Ret r k' ->
  (r = None /\ k' = k /\
   forall j, i <= j < i + n ->
     exists s, sl_sockets l !! j = Some s /\ s_crefs s <> 0%Z)
  \/
  (exists m s,
     m < n /\ sl_sockets l !! (i + m) = Some s /\ s_crefs s = 0%Z /\
     (forall j s', i <= j < i + m ->
        sl_sockets l !! j = Some s' -> s_crefs s' <> 0%Z) /\
     r = Some (to_int (Z.of_nat (i + m) + __SOCKFD_OFFSET)) /\
     k' = set_k_heap
            (<[p:=mk_socketlist (sl_sem l + 1) (sl_crefs l)
                    (<[i + m:=socket_taken]> (sl_sockets l))]> (k_heap k)) k).
Proof.
  intros Hp. revert i. induction n as [|n IH]; intros i Hrun.
  - left. cbn in Hrun. inversion Hrun. split_and!; [done|done|lia].
  - destruct (sl_sockets l !! i) as [s|] eqn:Hs.
    + destruct (decide (s_crefs s = 0%Z)) as [Hz|Hnz].
      * right. exists 0, s. rewrite Nat.add_0_r.
        rewrite (sockfd_allocate_loop_found p l k 0 (S n) i s) in Hrun;
          rewrite ?Nat.add_0_r; [|done|done|done|lia|lia].
        rewrite Nat.add_0_r in Hrun. inversion Hrun.
        split_and!; [lia|done|done|lia|done|done].
      * cbn [sockfd_allocate_loop] in Hrun. munfold.
        rewrite Hp in Hrun. ksimpl. rewrite Hs in Hrun. ksimpl.
        rewrite decide_False in Hrun by done.
        apply IH in Hrun as [(-> & -> & Hused)|(m & s' & Hm & Hs' & Hz & Hused & -> & ->)].
        -- left. split_and!; [done|done|]. intros j Hj.
           destruct (decide (j = i)) as [->|Hji]; [by exists s|].
           apply Hused. lia.
        -- right. exists (S m), s'.
           replace (i + S m) with (S i + m) by lia.
           split_and!; [lia|done|done| |done|done].
           intros j s0 Hj Hs0.
           destruct (decide (j = i)) as [->|Hji]; [congruence|].
           apply (Hused j); [lia|done].
    + cbn [sockfd_allocate_loop] in Hrun. munfold.
      rewrite Hp in Hrun. ksimpl. rewrite Hs in Hrun. done.
Qed.

(** ** What the three descriptor operations compute *)

Lemma sockfd_socket_eq (sockfd : Z) (k : kernel) :
  sockfd_socket sockfd k =
    Ret (if decide (valid_ndx (sockfd_ndx sockfd))
         then match k_sockets k with
              | Some p => Some (p, Z.to_nat (sockfd_ndx sockfd))
              | None => None
              end
         else None) k.
Proof.
  unfold sockfd_socket, valid_ndx, sockfd_ndx. munfold.
  destruct (decide _); [|done]. by destruct (k_sockets k).
Qed.

Lemma sockfd_allocate_nolist (k : kernel) :
  k_sockets k = None -> sockfd_allocate k = Ret ERROR k.
Proof. intros Hk. unfold sockfd_allocate. munfold. by rewrite Hk. Qed.

Lemma sockfd_allocate_found (p : positive) (l : socketlist) (k : kernel)
    (n : nat) (tr : list sem_result) (i : nat) (s : socket) :
  k_sockets k = Some p ->
  k_heap k !! p = Some l ->
  acquires n tr k ->
  i < CONFIG_NSOCKET_DESCRIPTORS ->
  sl_sockets l !! i = Some s ->
  s_crefs s = 0%Z ->
  (forall j s', j < i -> sl_sockets l !! j = Some s' -> s_crefs s' <> 0%Z) ->
  sockfd_allocate k =
    Ret (to_int (Z.of_nat i + __SOCKFD_OFFSET))
        (after p (set_sl_sockets (<[i:=socket_taken]> (sl_sockets l)) l)
               (errno_after n k) tr k).
Proof.
  intros Hk Hp Htr Hi Hs Hz Hused. unfold sockfd_allocate.
  cbv beta delta [bind sched_getsockets gets]. rewrite Hk.
  rewrite (_net_semtake_acquires p l tr n k Hp Htr).
  rewrite (sockfd_allocate_loop_found p (set_sl_sem (sl_sem l - 1) l) _ i _ 0 s);
    ksimpl; [| apply lookup_insert_eq | done | done | | done].
  - unfold ret, taken, after, set_k_heap. ksimpl.
    rewrite insert_insert_eq. do 4 f_equal.
    unfold set_sl_sockets. f_equal. lia.
  - intros j s' Hj. apply Hused. lia.
Qed.

Lemma sockfd_allocate_full (p : positive) (l : socketlist) (k : kernel)
    (n : nat) (tr : list sem_result) :
  k_sockets k = Some p ->
  k_heap k !! p = Some l ->
  acquires n tr k ->
  CONFIG_NSOCKET_DESCRIPTORS <= length (sl_sockets l) ->
  (forall j s, j < CONFIG_NSOCKET_DESCRIPTORS ->
     sl_sockets l !! j = Some s -> s_crefs s <> 0%Z) ->
  sockfd_allocate k = Ret ERROR (after p l (errno_after n k) tr k).
Proof.
  intros Hk Hp Htr Hlen Hused. unfold sockfd_allocate.
  cbv beta delta [bind sched_getsockets gets]. rewrite Hk.
  rewrite (_net_semtake_acquires p l tr n k Hp Htr).
  rewrite (sockfd_allocate_loop_full p (set_sl_sem (sl_sem l - 1) l));
    ksimpl; [| apply lookup_insert_eq | done |].
  - munfold. unfold taken, after. kred. unfold set_k_heap. ksimpl.
    rewrite insert_insert_eq. do 3 f_equal.
    destruct l; unfold set_sl_sem; ksimpl. f_equal. lia.
  - intros j s Hj. apply Hused. lia.
Qed.

Lemma sockfd_allocate_inv (k k' : kernel) (fd : Z) :
  sockfd_allocate k = Ret fd k' ->
  (k_sockets k = None /\ fd = ERROR /\ k' = k)
  \/
  (exists p l e tr,
     k_sockets k = Some p /\ k_heap k !! p = Some l /\
     ((fd = ERROR /\ k' = after p l e tr k /\
       forall j, j < CONFIG_NSOCKET_DESCRIPTORS ->
         exists s, sl_sockets l !! j = Some s /\ s_crefs s <> 0%Z)
      \/
      (exists i s,
         i < CONFIG_NSOCKET_DESCRIPTORS /\
         sl_sockets l !! i = Some s /\ s_crefs s = 0%Z /\
         (forall j s', j < i ->
            sl_sockets l !! j = Some s' -> s_crefs s' <> 0%Z) /\
         fd = to_int (Z.of_nat i + __SOCKFD_OFFSET) /\
         k' = after p (set_sl_sockets (<[i:=socket_taken]> (sl_sockets l)) l)
                    e tr k))).
Proof.
  unfold sockfd_allocate. cbv beta delta [bind sched_getsockets gets].
  destruct (k_sockets k) as [p|] eqn:Hk.
  - destruct (_net_semtake p k) as [[] k1|] eqn:Htake; [|done].
    apply _net_semtake_inv in Htake as (l & e & tr & Hp & ->).
    destruct (sockfd_allocate_loop _ p 0 _) as [r k2|] eqn:Hloop; [|done].
    apply (sockfd_allocate_loop_inv p (set_sl_sem (sl_sem l - 1) l)) in Hloop;
      [|apply lookup_insert_eq].
    intros Hrun. right. exists p, l, e, tr. split_and!; [done..|].
    destruct Hloop as [(-> & -> & Hused)|(m & s & Hm & Hs & Hz & Hused & -> & ->)].
    + left. revert Hrun. munfold. unfold taken, after in *. kred.
      intros [= <- <-]. split_and!; [done| |intros j Hj; apply Hused; lia].
      unfold set_k_heap. ksimpl. rewrite insert_insert_eq. do 2 f_equal.
      destruct l; unfold set_sl_sem; ksimpl. f_equal. lia.
    + right. exists m, s. ksimpl. unfold ret in Hrun.
      injection Hrun as <- <-. split_and!; [done..| |done|].
      * intros j s' Hj. apply Hused. lia.
      * unfold taken, after, set_k_heap. ksimpl.
        rewrite insert_insert_eq. do 2 f_equal.
        unfold set_sl_sockets. ksimpl. f_equal. lia.
  - intros Hrun. left. unfold ret in Hrun. by injection Hrun as <- <-.
Qed.

Lemma sockfd_release_noop (sockfd : Z) (k : kernel) :
  ~ valid_ndx (sockfd_ndx sockfd) \/ k_sockets k = None ->
  sockfd_release sockfd k = Ret tt k.
Proof.
  intros Hno. unfold sockfd_release. cbv beta delta [bind].
  rewrite sockfd_socket_eq. destruct (decide _) as [Hv|Hv]; [|done].
  destruct Hno as [Hno|Hno]; [done|]. by rewrite Hno.
Qed.

Lemma sockfd_release_slot (p : positive) (l : socketlist) (k : kernel)
    (n : nat) (tr : list sem_result) (sockfd : Z) (i : nat) (s : socket) :
  k_sockets k = Some p ->
  k_heap k !! p = Some l ->
  acquires n tr k ->
  valid_ndx (sockfd_ndx sockfd) ->
  i = Z.to_nat (sockfd_ndx sockfd) ->
  sl_sockets l !! i = Some s ->
  sockfd_release sockfd k =
    Ret tt (after p (set_sl_sockets (<[i:=released s]> (sl_sockets l)) l)
                  (errno_after n k) tr k).
Proof.
  intros Hk Hp Htr Hv -> Hs. unfold sockfd_release.
  cbv beta delta [bind]. rewrite sockfd_socket_eq.
  rewrite decide_True by done. rewrite Hk.
  cbv beta iota delta [sched_getsockets gets]. rewrite Hk.
  rewrite (_net_semtake_acquires p l tr n k Hp Htr).
  pose proof (lookup_lt_Some _ _ _ Hs) as Hi.
  munfold. unfold taken, after, released. kred.
  destruct (decide (1 < s_crefs s)%Z); kred;
    unfold set_k_heap; ksimpl; rewrite !insert_insert_eq;
    do 3 f_equal; unfold set_sl_sockets, set_sl_sem; ksimpl; f_equal; lia.
Qed.

Lemma sockfd_release_inv (sockfd : Z) (k k' : kernel) :
  sockfd_release sockfd k = Ret tt k' ->
  (k' = k /\ (~ valid_ndx (sockfd_ndx sockfd) \/ k_sockets k = None))
  \/
  (exists p l e tr s,
     valid_ndx (sockfd_ndx sockfd) /\
     k_sockets k = Some p /\ k_heap k !! p = Some l /\
     sl_sockets l !! Z.to_nat (sockfd_ndx sockfd) = Some s /\
     k' = after p (set_sl_sockets
                     (<[Z.to_nat (sockfd_ndx sockfd):=released s]>
                        (sl_sockets l)) l) e tr k).
Proof.
  destruct (decide (valid_ndx (sockfd_ndx sockfd))) as [Hv|Hv].
  2:{ rewrite sockfd_release_noop by auto. intros [= <-]. left. auto. }
  destruct (k_sockets k) as [p|] eqn:Hk.
  2:{ rewrite sockfd_release_noop by auto. intros [= <-]. left. auto. }
  unfold sockfd_release. cbv beta delta [bind]. rewrite sockfd_socket_eq.
  rewrite decide_True by done. rewrite Hk.
  cbv beta iota delta [sched_getsockets gets]. rewrite Hk.
  destruct (_net_semtake p k) as [[] k1|] eqn:Htake; [|done].
  apply _net_semtake_inv in Htake as (l & e & tr & Hp & ->).
  intros Hrun. right. exists p, l, e, tr.
  set (i := Z.to_nat (sockfd_ndx sockfd)) in *.
  revert Hrun. munfold. unfold taken, after. kred.
  destruct (sl_sockets l !! i) as [s|] eqn:Hs; [|done].
  pose proof (lookup_lt_Some _ _ _ Hs) as Hi.
  intros Hrun. exists s. split_and!; [done..|]. revert Hrun.
  unfold released.
  destruct (decide (1 < s_crefs s)%Z); kred;
    intros [= <-];
    unfold after, set_k_heap; ksimpl; rewrite !insert_insert_eq;
    do 2 f_equal; unfold set_sl_sockets, set_sl_sem; ksimpl; f_equal; lia.
Qed.

(** ** Descriptors *)

Lemma to_int_cases (x : Z) :
  (- 2 ^ 32 < x < 2 ^ 32)%Z ->
  to_int x = x \/ to_int x = (x + 2 ^ 32)%Z \/ to_int x = (x - 2 ^ 32)%Z.
Proof.
  intros Hx. unfold to_int, wrap_signed, INT_BITS.
  change (32 - 1)%Z with 31%Z.
  pose proof (Z.div_mod (x + 2 ^ 31) (2 ^ 32) ltac:(lia)) as Hdm.
  pose proof (Z.mod_pos_bound (x + 2 ^ 31) (2 ^ 32) ltac:(lia)) as Hb.
  lia.
Qed.

Lemma descriptor_no_wrap (i : nat) :
  config_ok -> i < CONFIG_NSOCKET_DESCRIPTORS ->
  to_int (Z.of_nat i + __SOCKFD_OFFSET) = (Z.of_nat i + __SOCKFD_OFFSET)%Z.
Proof.
  intros [H0 Hmax] Hi. apply to_int_small.
  unfold int_range, INT_MIN, INT_MAX in *. lia.
Qed.

Lemma sockfd_ndx_descriptor (i : nat) :
  i < CONFIG_NSOCKET_DESCRIPTORS ->
  config_ok ->
  sockfd_ndx (Z.of_nat i + __SOCKFD_OFFSET) = Z.of_nat i.
Proof.
  intros Hi [H0 Hmax]. unfold sockfd_ndx.
  replace (Z.of_nat i + __SOCKFD_OFFSET - __SOCKFD_OFFSET)%Z
    with (Z.of_nat i) by lia.
  apply to_int_small. unfold int_range, INT_MIN, INT_MAX in *. lia.
Qed.

Lemma descriptor_valid (i : nat) :
  i < CONFIG_NSOCKET_DESCRIPTORS ->
  config_ok ->
  valid_ndx (sockfd_ndx (Z.of_nat i + __SOCKFD_OFFSET)) /\
  Z.to_nat (sockfd_ndx (Z.of_nat i + __SOCKFD_OFFSET)) = i.
Proof.
  intros Hi Hc. rewrite sockfd_ndx_descriptor by done.
  unfold valid_ndx. lia.
Qed.

(** An [int] that decodes to a slot index is that index plus the offset. *)
Lemma sockfd_ndx_inv (sockfd : Z) :
  config_ok -> int_range sockfd -> valid_ndx (sockfd_ndx sockfd) ->
  sockfd = (sockfd_ndx sockfd + __SOCKFD_OFFSET)%Z.
Proof.
  unfold config_ok, int_range, valid_ndx, sockfd_ndx, INT_MIN, INT_MAX.
  intros [H0 Hmax] Hfd Hv.
  assert (- 2 ^ 32 < sockfd - __SOCKFD_OFFSET < 2 ^ 32)%Z as Hr by lia.
  destruct (to_int_cases _ Hr) as [H|[H|H]]; rewrite H in *; lia.
Qed.

(** ** Allocation *)

(** Among the first [n] slots either one is free, and then there is a
    lowest one, or all are in use. *)
Lemma lowest_free_or_full (ss : list socket) (n : nat) :
  n <= length ss ->
  (exists i s,
     i < n /\ ss !! i = Some s /\ s_crefs s = 0%Z /\
     forall j s', j < i -> ss !! j = Some s' -> s_crefs s' <> 0%Z)
  \/
  (forall j s, j < n -> ss !! j = Some s -> s_crefs s <> 0%Z).
Proof.
  induction n as [|n IH]; intros Hn; [right; lia|].
  destruct IH as [(i & s & Hi & Hs & Hz & Hlow)|Hfull]; [lia| |].
  - left. exists i, s. split_and!; [lia|done..].
  - destruct (lookup_lt_is_Some_2 ss n) as [s Hs]; [lia|].
    destruct (decide (s_crefs s = 0%Z)) as [Hz|Hnz].
    + left. exists n, s. split_and!; [lia|done|done|].
      intros j s' Hj. by apply Hfull.
    + right. intros j s' Hj Hs'.
      destruct (decide (j = n)) as [->|Hjn]; [congruence|].
      apply (Hfull j); [lia|done].
Qed.

(** C2: when [sockfd_allocate] returns a descriptor (a value other than
    ERROR), the caller has a list, and the descriptor is [i +
    __SOCKFD_OFFSET] where slot [i] had reference count 0 and every slot
    below [i] had a nonzero count: the scan from index 0 hands out the
    lowest free index. *)
Theorem sockfd_allocate_lowest_free (k k' : kernel) (fd : Z) :
  config_ok ->
  sockfd_allocate k = Ret fd k' ->
  fd <> ERROR ->
  exists p l i s,
    k_sockets k = Some p /\ k_heap k !! p = Some l /\
    i < CONFIG_NSOCKET_DESCRIPTORS /\
    sl_sockets l !! i = Some s /\ s_crefs s = 0%Z /\
    (forall j s', j < i -> sl_sockets l !! j = Some s' -> s_crefs s' <> 0%Z) /\
    fd = (Z.of_nat i + __SOCKFD_OFFSET)%Z.
Proof.
  intros Hc Hrun Hfd.
  apply sockfd_allocate_inv in Hrun
    as [(_ & -> & _)|(p & l & e & tr & Hk & Hp & [(-> & _)|Hfound])];
    [done|done|].
  destruct Hfound as (i & s & Hi & Hs & Hz & Hlow & -> & _).
  exists p, l, i, s. split_and!; [done..|].
  by apply descriptor_no_wrap.
Qed.

(** With the semaphore to be had and at least the configured number of
    slots in the list, [sockfd_allocate] returns. *)
Lemma sockfd_allocate_returns (p : positive) (l : socketlist) (k : kernel)
    (n : nat) (tr : list sem_result) :
  k_sockets k = Some p ->
  k_heap k !! p = Some l ->
  acquires n tr k ->
  CONFIG_NSOCKET_DESCRIPTORS <= length (sl_sockets l) ->
  (exists i s,
     i < CONFIG_NSOCKET_DESCRIPTORS /\
     sl_sockets l !! i = Some s /\ s_crefs s = 0%Z /\
     (forall j s', j < i -> sl_sockets l !! j = Some s' -> s_crefs s' <> 0%Z) /\
     sockfd_allocate k =
       Ret (to_int (Z.of_nat i + __SOCKFD_OFFSET))
           (after p (set_sl_sockets (<[i:=socket_taken]> (sl_sockets l)) l)
                  (errno_after n k) tr k))
  \/
  ((forall j s, j < CONFIG_NSOCKET_DESCRIPTORS ->
      sl_sockets l !! j = Some s -> s_crefs s <> 0%Z) /\
   sockfd_allocate k = Ret ERROR (after p l (errno_after n k) tr k)).
Proof.
  intros Hk Hp Htr Hlen.
  destruct (lowest_free_or_full (sl_sockets l) _ Hlen)
    as [(i & s & Hi & Hs & Hz & Hlow)|Hfull].
  - left. exists i, s. split_and!; [done..|].
    by apply (sockfd_allocate_found p l k n tr i s).
  - right. split; [done|]. by apply sockfd_allocate_full.
Qed.

(** C5, as the code has it: [sockfd_allocate] returns ERROR when the
    caller has no socket list, and it returns the same ERROR when the
    semaphore was taken and every slot has a nonzero reference count; in
    the second case the semaphore is given back before the return (its
    count is what it was, the list is unchanged), and errno is set by
    neither. *)
Theorem sockfd_allocate_errors (k : kernel) :
  (k_sockets k = None -> sockfd_allocate k = Ret ERROR k) /\
  (forall p l n tr,
     k_sockets k = Some p ->
     k_heap k !! p = Some l ->
     length (sl_sockets l) = CONFIG_NSOCKET_DESCRIPTORS ->
     acquires n tr k ->
     (forall j s, sl_sockets l !! j = Some s -> s_crefs s <> 0%Z) ->
     exists k',
       sockfd_allocate k = Ret ERROR k' /\
       k_heap k' = k_heap k /\
       k_heap k' !! p = Some l /\
       k_semwait k' = tr /\
       k_errno k' = errno_after n k).
Proof.
  split; [apply sockfd_allocate_nolist|].
  intros p l n tr Hk Hp Hlen Htr Hfull.
  eexists. split.
  - apply (sockfd_allocate_full p l k n tr); [done..|lia|].
    intros j s _. apply Hfull.
  - unfold after. ksimpl. rewrite insert_id by done. done.
Qed.

(** ** Release *)

(** C3: for the descriptor of slot [i] of the caller's list, once the
    semaphore is taken [sockfd_release] returns; if the count of the slot
    was above 1 it is now one less, the rest of the slot and of the list is
    as before, and lookup still gives the slot, whose count is not 0; if
    the count was 1 or 0 (or less) the slot is all zero, and the next
    [sockfd_allocate] returns a descriptor that is not above this one, and
    is this one when every lower slot is in use. *)
Theorem sockfd_release_refcount (k : kernel) (p : positive) (l : socketlist)
    (n : nat) (tr : list sem_result) (i : nat) (s : socket) :
  config_ok ->
  k_sockets k = Some p ->
  k_heap k !! p = Some l ->
  length (sl_sockets l) = CONFIG_NSOCKET_DESCRIPTORS ->
  acquires n tr k ->
  sl_sockets l !! i = Some s ->
  int_range (s_crefs s) ->
  exists k',
    sockfd_release (Z.of_nat i + __SOCKFD_OFFSET) k = Ret tt k' /\
    ((1 < s_crefs s)%Z ->
       k_heap k' =
         <[p:=set_sl_sockets
                (<[i:=set_s_crefs (s_crefs s - 1) s]> (sl_sockets l)) l]>
           (k_heap k) /\
       sockfd_socket (Z.of_nat i + __SOCKFD_OFFSET) k' = Ret (Some (p, i)) k' /\
       load_socket p i k' = Ret (set_s_crefs (s_crefs s - 1) s) k' /\
       (s_crefs s - 1 <> 0)%Z) /\
    ((s_crefs s <= 1)%Z ->
       k_heap k' =
         <[p:=set_sl_sockets (<[i:=socket_zero]> (sl_sockets l)) l]>
           (k_heap k) /\
       forall n' tr',
         acquires n' tr' k' ->
         exists fd' k'',
           sockfd_allocate k' = Ret fd' k'' /\
           (__SOCKFD_OFFSET <= fd' <= Z.of_nat i + __SOCKFD_OFFSET)%Z /\
           ((forall j s', j < i ->
               sl_sockets l !! j = Some s' -> s_crefs s' <> 0%Z) ->
            fd' = (Z.of_nat i + __SOCKFD_OFFSET)%Z)).
Proof.
  intros Hc Hk Hp Hlen Htr Hs Hrange.
  pose proof (lookup_lt_Some _ _ _ Hs) as Hi. rewrite Hlen in Hi.
  destruct (descriptor_valid i Hi Hc) as [Hv Hndx].
  eexists. split.
  { apply (sockfd_release_slot p l k n tr _ i s); done. }
  unfold released. split.
  - intros Hgt. rewrite decide_True by done.
    rewrite to_int_small by (unfold int_range, INT_MIN, INT_MAX in *; lia).
    split_and!; [done| | |lia].
    + rewrite sockfd_socket_eq, decide_True by done. unfold after. ksimpl.
      by rewrite Hk, Hndx.
    + munfold. unfold after. kred. done.
  - intros Hle. rewrite decide_False by lia. split; [done|].
    intros n' tr' Htr'.
    set (l' := set_sl_sockets (<[i:=socket_zero]> (sl_sockets l)) l) in *.
    set (k' := after p l' (errno_after n k) tr k) in *.
    assert (Hs' : sl_sockets l' !! i = Some socket_zero).
    { unfold l'. ksimpl. apply list_lookup_insert_eq. lia. }
    destruct (sockfd_allocate_returns p l' k' n' tr')
      as [(i' & s' & Hi' & Hsi' & Hz' & Hlow' & Hrun)|[Hfull _]];
      [done|apply lookup_insert_eq|done|unfold l'; ksimpl;
       rewrite length_insert; lia| |].
    + assert (i' <= i) as Hle'.
      { destruct (decide (i' <= i)) as [|Hgt]; [done|].
        exfalso. apply (Hlow' i socket_zero); [lia|done|done]. }
      exists (to_int (Z.of_nat i' + __SOCKFD_OFFSET)). eexists.
      split; [exact Hrun|].
      rewrite descriptor_no_wrap by done. split; [lia|].
      intros Hused. destruct (decide (i' = i)) as [->|Hne]; [done|].
      exfalso. apply (Hused i' s'); [lia| |done].
      unfold l' in Hsi'. ksimpl.
      by rewrite list_lookup_insert_ne in Hsi' by lia.
    + exfalso. by apply (Hfull i socket_zero).
Qed.

(** C6: [sockfd_release] of a descriptor whose index is out of range
    returns at once and leaves the kernel as it was; of a descriptor whose
    slot is free already (count 0, hence all zero) it returns once the
    semaphore is taken and leaves every socket list, with its semaphore
    count, as it was.  Nothing but errno and the used-up results of
    [sem_wait] can tell that the call was made. *)
Theorem sockfd_release_invalid_noop (sockfd : Z) (k : kernel) :
  (~ valid_ndx (sockfd_ndx sockfd) -> sockfd_release sockfd k = Ret tt k) /\
  (forall p l n tr s,
     valid_ndx (sockfd_ndx sockfd) ->
     k_sockets k = Some p ->
     k_heap k !! p = Some l ->
     list_inv l ->
     acquires n tr k ->
     sl_sockets l !! Z.to_nat (sockfd_ndx sockfd) = Some s ->
     s_crefs s = 0%Z ->
     exists k',
       sockfd_release sockfd k = Ret tt k' /\
       k_heap k' = k_heap k /\
       k_sockets k' = k_sockets k /\
       k_mem k' = k_mem k /\ k_irq k' = k_irq k /\ k_log k' = k_log k).
Proof.
  split.
  - intros Hv. apply sockfd_release_noop. by left.
  - intros p l n tr s Hv Hk Hp [Hlen Hinv] Htr Hs Hz.
    eexists. split.
    { by apply (sockfd_release_slot p l k n tr sockfd _ s Hk Hp Htr Hv eq_refl). }
    unfold after, released. ksimpl. split_and!; [|done..].
    rewrite decide_False by lia.
    destruct (Hinv _ _ Hs) as [_ Hzero]. rewrite <- (Hzero Hz).
    rewrite list_insert_id by done.
    apply insert_id. rewrite Hp. by destruct l.
Qed.

(** ** Interrupted waits *)

(** C9: let the next [n] calls of [sem_wait] fail with EINTR and the one
    after them succeed.  Then [_net_semtake] returns with the semaphore
    taken, having used up exactly these results; and [sockfd_allocate],
    and [sockfd_release] of an in-range descriptor, return the value and
    leave the kernel that they do when the first wait succeeds at once,
    errno apart (the interrupted waits leave EINTR there).  Were the
    successful wait missing, [_net_semtake] would not return at all. *)
Theorem _net_semtake_retries (k : kernel) (p : positive) (l : socketlist)
    (n : nat) (tr : list sem_result) (sockfd : Z) :
  k_sockets k = Some p ->
  k_heap k !! p = Some l ->
  length (sl_sockets l) = CONFIG_NSOCKET_DESCRIPTORS ->
  acquires n tr k ->
  valid_ndx (sockfd_ndx sockfd) ->
  _net_semtake p k = Ret tt (taken p l (errno_after n k) tr k) /\
  _net_semtake p (set_k_semwait (replicate n (SemErr EINTR)) k)
    = Stop Waiting /\
  (exists fd k' k0',
     sockfd_allocate k = Ret fd k' /\
     sockfd_allocate (set_k_semwait (SemOK :: tr) k) = Ret fd k0' /\
     same_but_errno k' k0') /\
  (exists k' k0',
     sockfd_release sockfd k = Ret tt k' /\
     sockfd_release sockfd (set_k_semwait (SemOK :: tr) k) = Ret tt k0' /\
     same_but_errno k' k0').
Proof.
  intros Hk Hp Hlen Htr Hv.
  set (k0 := set_k_semwait (SemOK :: tr) k).
  assert (Htr0 : acquires 0 tr k0) by reflexivity.
  split; [by apply _net_semtake_acquires|].
  split; [by apply (_net_semtake_loop_waits p l n)|]. split.
  - destruct (sockfd_allocate_returns p l k n tr)
      as [(i & s & Hi & Hs & Hz & Hlow & Hrun)|[Hfull Hrun]];
      [done|done|done|lia| |].
    + do 3 eexists. split; [exact Hrun|]. split.
      * by apply (sockfd_allocate_found p l k0 0 tr i s).
      * by unfold same_but_errno, after.
    + do 3 eexists. split; [exact Hrun|]. split.
      * apply (sockfd_allocate_full p l k0 0 tr); [done..|lia|done].
      * by unfold same_but_errno, after.
  - destruct (lookup_lt_is_Some_2 (sl_sockets l) (Z.to_nat (sockfd_ndx sockfd)))
      as [s Hs].
    { unfold valid_ndx in Hv. lia. }
    do 2 eexists. split_and!.
    + by apply (sockfd_release_slot p l k n tr sockfd _ s Hk Hp Htr Hv eq_refl).
    + by apply (sockfd_release_slot p l k0 0 tr sockfd _ s Hk Hp Htr0 Hv eq_refl).
    + by unfold same_but_errno, after.
Qed.

(** ** The life of a list *)

Lemma wrap_signed_byte (x : Z) :
  (8 <= sl_crefs_bits)%Z -> (-128 <= x <= 127)%Z ->
  wrap_signed sl_crefs_bits x = x.
Proof.
  intros Hb Hx. apply wrap_signed_small; [lia|].
  pose proof (Z.pow_le_mono_r 2 7 (sl_crefs_bits - 1) ltac:(lia) ltac:(lia)).
  lia.
Qed.

Lemma net_alloclist_fresh (k : kernel) (m : nat) :
  k_mem k = S m ->
  net_alloclist k =
    Ret (Some (fresh (dom (k_heap k))))
        (mk_kernel
           (<[fresh (dom (k_heap k)):=
                mk_socketlist 1 (wrap_signed sl_crefs_bits 1)
                  (replicate CONFIG_NSOCKET_DESCRIPTORS socket_zero)]>
              (k_heap k))
           (k_sockets k) (k_errno k) (k_semwait k) m (k_irq k)
           (k_log k ++ [EvSemInit (fresh (dom (k_heap k))) 1])).
Proof.
  intros Hm. unfold net_alloclist, kzmalloc. munfold. rewrite Hm. kred.
  unfold set_k_heap, socketlist_zero. ksimpl.
  by rewrite !insert_insert_eq.
Qed.

Lemma net_addreflist_eq (k : kernel) (p : positive) (l : socketlist) :
  k_heap k !! p = Some l ->
  net_addreflist (Some p) k =
    Ret OK (set_k_heap
              (<[p:=set_sl_crefs (wrap_signed sl_crefs_bits (sl_crefs l + 1)) l]>
                 (k_heap k)) k).
Proof. intros Hp. unfold net_addreflist. munfold. by kred. Qed.

Lemma net_releaselist_eq (k : kernel) (p : positive) (l : socketlist) :
  k_heap k !! p = Some l ->
  net_releaselist (Some p) k =
    Ret OK
      (if decide (wrap_signed sl_crefs_bits (sl_crefs l - 1) <= 0)%Z
       then mk_kernel (delete p (k_heap k)) (k_sockets k) (k_errno k)
              (k_semwait k) (S (k_mem k)) (k_irq k)
              (k_log k ++ [EvSemDestroy p; EvFree p])
       else set_k_heap
              (<[p:=set_sl_crefs
                      (wrap_signed sl_crefs_bits (sl_crefs l - 1)) l]>
                 (k_heap k)) k).
Proof.
  intros Hp. unfold net_releaselist. munfold. kred.
  destruct (decide _); kred; [|done].
  kunfold. by rewrite delete_insert_eq, <- app_assoc.
Qed.

Lemma net_addreflist_small (k : kernel) (p : positive) (l : socketlist)
    (c : Z) :
  (8 <= sl_crefs_bits)%Z ->
  k_heap k !! p = Some l ->
  sl_crefs l = c -> (-128 <= c + 1 <= 127)%Z ->
  net_addreflist (Some p) k =
    Ret OK (set_k_heap (<[p:=set_sl_crefs (c + 1) l]> (k_heap k)) k).
Proof.
  intros Hb Hp <- Hc. rewrite (net_addreflist_eq k p l Hp).
  by rewrite wrap_signed_byte.
Qed.

Lemma net_releaselist_keeps (k : kernel) (p : positive) (l : socketlist)
    (c : Z) :
  (8 <= sl_crefs_bits)%Z ->
  k_heap k !! p = Some l ->
  sl_crefs l = c -> (0 < c - 1 <= 127)%Z ->
  net_releaselist (Some p) k =
    Ret OK (set_k_heap (<[p:=set_sl_crefs (c - 1) l]> (k_heap k)) k).
Proof.
  intros Hb Hp <- Hc. rewrite (net_releaselist_eq k p l Hp).
  rewrite wrap_signed_byte by (done || lia).
  by rewrite decide_False by lia.
Qed.

Lemma net_releaselist_last (k : kernel) (p : positive) (l : socketlist)
    (c : Z) :
  (8 <= sl_crefs_bits)%Z ->
  k_heap k !! p = Some l ->
  sl_crefs l = c -> (-128 <= c - 1 <= 0)%Z ->
  net_releaselist (Some p) k =
    Ret OK (mk_kernel (delete p (k_heap k)) (k_sockets k) (k_errno k)
              (k_semwait k) (S (k_mem k)) (k_irq k)
              (k_log k ++ [EvSemDestroy p; EvFree p])).
Proof.
  intros Hb Hp <- Hc. rewrite (net_releaselist_eq k p l Hp).
  rewrite wrap_signed_byte by (done || lia).
  by rewrite decide_True by lia.
Qed.

(** C4: [net_releaselist] stores the count less one (wrapped to the width
    of the field, which changes nothing while the count is above the least
    value of the field) and returns OK with interrupts as they were; when
    the new count is 0 or less it has called [sem_destroy] and then
    [sched_free] on the list, which is gone from the heap; when the new
    count is positive it has called neither and the list is still there.
    In particular, from a kernel with memory left, [net_alloclist] gives a
    list with count 1, two calls of [net_addreflist] bring it to 3, the
    first two calls of [net_releaselist] leave the list in the heap with
    counts 2 and 1, and the third destroys the semaphore and frees it. *)
Theorem net_releaselist_frees_at_zero (k k0 : kernel) (p : positive)
    (l : socketlist) :
  (8 <= sl_crefs_bits)%Z ->
  k_heap k !! p = Some l ->
  0 < k_mem k0 ->
  (exists k',
     net_releaselist (Some p) k = Ret OK k' /\
     k_irq k' = k_irq k /\
     ((- 2 ^ (sl_crefs_bits - 1) < sl_crefs l < 2 ^ (sl_crefs_bits - 1))%Z ->
      wrap_signed sl_crefs_bits (sl_crefs l - 1) = (sl_crefs l - 1)%Z) /\
     ((wrap_signed sl_crefs_bits (sl_crefs l - 1) <= 0)%Z ->
      k_heap k' = delete p (k_heap k) /\
      k_log k' = k_log k ++ [EvSemDestroy p; EvFree p]) /\
     ((0 < wrap_signed sl_crefs_bits (sl_crefs l - 1))%Z ->
      k_heap k' =
        <[p:=set_sl_crefs (wrap_signed sl_crefs_bits (sl_crefs l - 1)) l]>
          (k_heap k) /\
      k_log k' = k_log k))
  /\
  (exists q k1 k2 k3 k4 k5 k6 l1 l3 l4 l5,
     net_alloclist k0 = Ret (Some q) k1 /\
     k_heap k1 !! q = Some l1 /\ sl_crefs l1 = 1%Z /\
     net_addreflist (Some q) k1 = Ret OK k2 /\
     net_addreflist (Some q) k2 = Ret OK k3 /\
     k_heap k3 !! q = Some l3 /\ sl_crefs l3 = 3%Z /\
     net_releaselist (Some q) k3 = Ret OK k4 /\
     k_heap k4 !! q = Some l4 /\ sl_crefs l4 = 2%Z /\
     k_log k4 = k_log k3 /\
     net_releaselist (Some q) k4 = Ret OK k5 /\
     k_heap k5 !! q = Some l5 /\ sl_crefs l5 = 1%Z /\
     k_log k5 = k_log k3 /\
     net_releaselist (Some q) k5 = Ret OK k6 /\
     k_heap k6 !! q = None /\
     k_log k6 = k_log k3 ++ [EvSemDestroy q; EvFree q]).
Proof.
  intros Hb Hp Hmem. split.
  - eexists. split; [by apply net_releaselist_eq|].
    split_and!.
    + by destruct (decide _).
    + intros Hr. apply wrap_signed_small; lia.
    + intros Hle. by rewrite decide_True.
    + intros Hgt. by rewrite decide_False by lia.
  - destruct (k_mem k0) as [|m] eqn:Hm; [lia|].
    pose proof (net_alloclist_fresh k0 m Hm) as H1.
    rewrite (wrap_signed_byte 1) in H1 by (done || lia).
    set (q := fresh (dom (k_heap k0))) in *.
    set (l1 := mk_socketlist 1 1 _) in H1. set (k1 := mk_kernel _ _ _ _ _ _ _) in H1.
    assert (Hq1 : k_heap k1 !! q = Some l1) by apply lookup_insert_eq.
    pose proof (net_addreflist_small k1 q l1 1 Hb Hq1 eq_refl ltac:(lia)) as H2.
    set (l2 := set_sl_crefs (1 + 1) l1) in H2. set (k2 := set_k_heap _ k1) in H2.
    assert (Hq2 : k_heap k2 !! q = Some l2) by apply lookup_insert_eq.
    pose proof (net_addreflist_small k2 q l2 2 Hb Hq2 eq_refl ltac:(lia)) as H3.
    set (l3 := set_sl_crefs (2 + 1) l2) in H3. set (k3 := set_k_heap _ k2) in H3.
    assert (Hq3 : k_heap k3 !! q = Some l3) by apply lookup_insert_eq.
    pose proof (net_releaselist_keeps k3 q l3 3 Hb Hq3 eq_refl ltac:(lia)) as H4.
    set (l4 := set_sl_crefs (3 - 1) l3) in H4. set (k4 := set_k_heap _ k3) in H4.
    assert (Hq4 : k_heap k4 !! q = Some l4) by apply lookup_insert_eq.
    pose proof (net_releaselist_keeps k4 q l4 2 Hb Hq4 eq_refl ltac:(lia)) as H5.
    set (l5 := set_sl_crefs (2 - 1) l4) in H5. set (k5 := set_k_heap _ k4) in H5.
    assert (Hq5 : k_heap k5 !! q = Some l5) by apply lookup_insert_eq.
    pose proof (net_releaselist_last k5 q l5 1 Hb Hq5 eq_refl ltac:(lia)) as H6.
    set (k6 := mk_kernel _ _ _ _ _ _ _) in H6.
    exists q, k1, k2, k3, k4, k5, k6, l1, l3, l4, l5.
    split_and!; try done. apply lookup_delete_eq.
Qed.

(** ** The invariant of free slots *)

Lemma list_inv_ext (l l' : socketlist) :
  sl_sockets l' = sl_sockets l -> list_inv l -> list_inv l'.
Proof. unfold list_inv. by intros ->. Qed.

Lemma list_inv_insert (l : socketlist) (i : nat) (s : socket) :
  list_inv l ->
  int_range (s_crefs s) ->
  (s_crefs s = 0%Z -> s = socket_zero) ->
  list_inv (set_sl_sockets (<[i:=s]> (sl_sockets l)) l).
Proof.
  intros [Hlen Hinv] Hr Hz. split; ksimpl; [by rewrite length_insert|].
  intros j s' Hj.
  destruct (decide (i = j)) as [->|Hne].
  - apply (proj1 (list_lookup_insert_Some _ _ _ _ _)) in Hj
      as [(_ & <- & _)|(? & _)]; done.
  - rewrite list_lookup_insert_ne in Hj by done. by apply (Hinv j).
Qed.

Lemma list_inv_zero (sem crefs : Z) :
  list_inv (mk_socketlist sem crefs
              (replicate CONFIG_NSOCKET_DESCRIPTORS socket_zero)).
Proof.
  split; ksimpl; [apply length_replicate|].
  intros i s Hs. apply lookup_replicate_1 in Hs as [-> _].
  split; [|done]. unfold int_range, INT_MIN, INT_MAX, socket_zero. ksimpl. lia.
Qed.

Lemma kernel_inv_insert (k k' : kernel) (p : positive) (l' : socketlist) :
  kernel_inv k -> list_inv l' ->
  k_heap k' = <[p:=l']> (k_heap k) ->
  kernel_inv k'.
Proof.
  intros Hinv Hl' Hh q l. rewrite Hh.
  destruct (decide (p = q)) as [->|Hne].
  - rewrite lookup_insert_eq. by intros [= <-].
  - rewrite lookup_insert_ne by done. apply Hinv.
Qed.

Lemma kernel_inv_delete (k k' : kernel) (p : positive) :
  kernel_inv k -> k_heap k' = delete p (k_heap k) -> kernel_inv k'.
Proof.
  intros Hinv Hh q l. rewrite Hh. intros Hq.
  apply lookup_delete_Some in Hq as [_ Hq]. by apply (Hinv q).
Qed.

Lemma released_inv (s : socket) :
  int_range (s_crefs s) ->
  int_range (s_crefs (released s)) /\
  (s_crefs (released s) = 0%Z -> released s = socket_zero).
Proof.
  intros Hr. unfold released. destruct (decide _) as [Hgt|Hle]; ksimpl.
  - rewrite to_int_small by (unfold int_range, INT_MIN, INT_MAX in *; lia).
    split; [unfold int_range, INT_MIN, INT_MAX in *; lia|lia].
  - split; [|done]. unfold int_range, INT_MIN, INT_MAX, socket_zero. ksimpl. lia.
Qed.

Lemma socket_taken_inv :
  int_range (s_crefs socket_taken) /\
  (s_crefs socket_taken = 0%Z -> socket_taken = socket_zero).
Proof.
  unfold socket_taken, int_range, INT_MIN, INT_MAX. ksimpl. split; lia.
Qed.

(** C7: the invariant that every list in the heap has its declared number
    of slots, every count an [int], and every slot with count 0 all zero,
    is kept by each of the six operations whenever it returns.  Moreover a
    list that [net_alloclist] creates has all its slots zero; the slot that
    [sockfd_allocate] hands out is the all-zero slot with its count set to
    1; and [sockfd_release] of a slot whose count is 1 or less leaves the
    whole slot zero. *)
Theorem free_slots_zeroed (k : kernel) :
  kernel_inv k ->
  (forall r k',
     net_alloclist k = Ret r k' ->
     kernel_inv k' /\
     forall p, r = Some p ->
       exists l, k_heap k' !! p = Some l /\
         sl_sockets l = replicate CONFIG_NSOCKET_DESCRIPTORS socket_zero) /\
  (forall list r k', net_addreflist list k = Ret r k' -> kernel_inv k') /\
  (forall list r k', net_releaselist list k = Ret r k' -> kernel_inv k') /\
  (forall fd k',
     sockfd_allocate k = Ret fd k' ->
     kernel_inv k' /\
     (fd <> ERROR ->
      exists p l i,
        k_sockets k = Some p /\ k_heap k' !! p = Some l /\
        fd = to_int (Z.of_nat i + __SOCKFD_OFFSET) /\
        sl_sockets l !! i = Some (set_s_crefs 1 socket_zero))) /\
  (forall sockfd k',
     sockfd_release sockfd k = Ret tt k' ->
     kernel_inv k' /\
     forall p l s,
       valid_ndx (sockfd_ndx sockfd) ->
       k_sockets k = Some p -> k_heap k !! p = Some l ->
       sl_sockets l !! Z.to_nat (sockfd_ndx sockfd) = Some s ->
       (s_crefs s <= 1)%Z ->
       exists l',
         k_heap k' !! p = Some l' /\
         sl_sockets l' !! Z.to_nat (sockfd_ndx sockfd) = Some socket_zero) /\
  (forall sockfd r k', sockfd_socket sockfd k = Ret r k' -> kernel_inv k').
Proof.
  intros Hinv. split_and!.
  - intros r k'. destruct (k_mem k) as [|m] eqn:Hm.
    + unfold net_alloclist, kzmalloc. munfold. rewrite Hm.
      intros [= <- <-]. split; [done|]. intros p [=].
    + rewrite (net_alloclist_fresh k m Hm). intros [= <- <-]. split.
      * apply (kernel_inv_insert k _ (fresh (dom (k_heap k))) _ Hinv
                 (list_inv_zero 1 (wrap_signed sl_crefs_bits 1))).
        reflexivity.
      * intros p [= <-]. eexists. split; [apply lookup_insert_eq|done].
  - intros [p|] r k'.
    + destruct (k_heap k !! p) as [l|] eqn:Hp.
      * rewrite (net_addreflist_eq k p l Hp). intros [= <- <-].
        eapply (kernel_inv_insert k _ p _ Hinv); [|reflexivity].
        apply (list_inv_ext l); [done|]. by apply (Hinv p).
      * unfold net_addreflist. munfold. ksimpl. by rewrite Hp.
    + unfold net_addreflist. munfold. by intros [= <- <-].
  - intros [p|] r k'.
    + destruct (k_heap k !! p) as [l|] eqn:Hp.
      * rewrite (net_releaselist_eq k p l Hp). intros [= <- <-].
        destruct (decide _).
        -- by eapply (kernel_inv_delete k _ p Hinv).
        -- eapply (kernel_inv_insert k _ p _ Hinv); [|reflexivity].
           apply (list_inv_ext l); [done|]. by apply (Hinv p).
      * unfold net_releaselist. munfold. ksimpl. by rewrite Hp.
    + unfold net_releaselist. munfold. by intros [= <- <-].
  - intros fd k' Hrun.
    apply sockfd_allocate_inv in Hrun
      as [(_ & -> & ->)|(p & l & e & tr & Hk & Hp
                         & [(-> & -> & _)|(i & s & Hi & Hs & Hz & _ & -> & ->)])].
    + done.
    + split; [|done].
      apply (kernel_inv_insert k _ p l Hinv); [by apply (Hinv p)|reflexivity].
    + split.
      * eapply (kernel_inv_insert k _ p _ Hinv); [|reflexivity].
        apply list_inv_insert; [by apply (Hinv p)|apply socket_taken_inv..].
      * intros _. exists p. eexists. exists i.
        split_and!; [done|apply lookup_insert_eq|done|].
        ksimpl. apply list_lookup_insert_eq. by apply lookup_lt_Some in Hs.
  - intros sockfd k' Hrun.
    apply sockfd_release_inv in Hrun
      as [(-> & Hno)|(p & l & e & tr & s & Hv & Hk & Hp & Hs & ->)].
    + split; [done|]. intros p l s Hv Hk. destruct Hno as [|Hno]; [done|].
      congruence.
    + destruct (Hinv p l Hp) as [Hlen Hslots].
      split.
      * eapply (kernel_inv_insert k _ p _ Hinv); [|reflexivity].
        apply list_inv_insert; [by apply (Hinv p)|apply released_inv..];
          by apply (Hslots _ _ Hs).
      * intros p' l' s' _ Hk' Hp' Hs' Hle.
        assert (p' = p) as -> by congruence.
        assert (l' = l) as -> by congruence.
        assert (s' = s) as -> by congruence.
        eexists. split; [apply lookup_insert_eq|]. ksimpl.
        unfold released. rewrite decide_False by lia.
        apply list_lookup_insert_eq. by apply lookup_lt_Some in Hs.
  - intros sockfd r k'. rewrite sockfd_socket_eq. by intros [= _ <-].
Qed.

(** ** Sequences of allocate and release *)

Lemma live_inv_allocate (p : positive) (k k' : kernel) (live : list Z)
    (fd : Z) :
  config_ok ->
  live_inv p k live ->
  sockfd_allocate k = Ret fd k' ->
  live_inv p k' (if decide (fd = ERROR) then live else fd :: live).
Proof.
  intros Hc (l & Hk & Hp & Hlen & Hnd & Hlive) Hrun.
  apply sockfd_allocate_inv in Hrun
    as [(Hk' & _)|(p' & l' & e & tr & Hk' & Hp'
                   & [(-> & -> & _)|(i & s & Hi & Hs & Hz & _ & -> & ->)])];
    [congruence| |].
  - assert (p' = p) as -> by congruence.
    assert (l' = l) as -> by congruence.
    rewrite decide_True by done.
    exists l. unfold after. ksimpl. by rewrite lookup_insert_eq.
  - assert (p' = p) as -> by congruence.
    assert (l' = l) as -> by congruence.
    rewrite descriptor_no_wrap by done.
    rewrite decide_False by (destruct Hc; unfold ERROR; lia).
    exists (set_sl_sockets (<[i:=socket_taken]> (sl_sockets l)) l).
    unfold after. ksimpl. rewrite lookup_insert_eq.
    split_and!; [done|done|by rewrite length_insert| |].
    + apply NoDup_cons. split; [|done].
      intros Hin. destruct (Hlive _ Hin) as (i' & s' & Heq & Hs' & H1).
      assert (i' = i) as -> by lia. rewrite Hs in Hs'. injection Hs' as ->.
      lia.
    + intros fd Hin. apply elem_of_cons in Hin as [->|Hin].
      * exists i, socket_taken. split_and!; [done| |done].
        apply list_lookup_insert_eq. lia.
      * destruct (Hlive _ Hin) as (i' & s' & -> & Hs' & H1).
        exists i', s'. split_and!; [done| |done].
        rewrite list_lookup_insert_ne; [done|].
        intros ->. rewrite Hs in Hs'. injection Hs' as ->. lia.
Qed.

Lemma live_inv_release (p : positive) (k k' : kernel) (live : list Z)
    (sockfd : Z) :
  config_ok ->
  int_range sockfd ->
  live_inv p k live ->
  sockfd_release sockfd k = Ret tt k' ->
  live_inv p k' (filter (fun fd => fd <> sockfd) live).
Proof.
  intros Hc Hint (l & Hk & Hp & Hlen & Hnd & Hlive) Hrun.
  apply sockfd_release_inv in Hrun
    as [(-> & _)|(p' & l' & e & tr & s & Hv & Hk' & Hp' & Hs & ->)].
  - exists l. split_and!; [done..|by apply NoDup_filter|].
    intros fd Hin. apply list_elem_of_filter in Hin as [_ Hin]. by apply Hlive.
  - assert (p' = p) as -> by congruence.
    assert (l' = l) as -> by congruence.
    exists (set_sl_sockets
              (<[Z.to_nat (sockfd_ndx sockfd):=released s]> (sl_sockets l)) l).
    unfold after. ksimpl. rewrite lookup_insert_eq.
    split_and!; [done|done|by rewrite length_insert|by apply NoDup_filter|].
    intros fd Hin. apply list_elem_of_filter in Hin as [Hne Hin].
    destruct (Hlive _ Hin) as (i' & s' & -> & Hs' & H1).
    exists i', s'. split_and!; [done| |done].
    rewrite list_lookup_insert_ne; [done|].
    intros Heq. apply Hne.
    rewrite (sockfd_ndx_inv sockfd Hc Hint Hv).
    unfold valid_ndx in Hv. lia.
Qed.

Lemma live_inv_run (p : positive) (ops : list op) (k k' : kernel)
    (live live' : list Z) :
  config_ok ->
  Forall op_ok ops ->
  live_inv p k live ->
  run ops live k = Ret live' k' ->
  live_inv p k' live'.
Proof.
  intros Hc Hops. revert k live.
  induction Hops as [|o ops Ho _ IH]; intros k live Hinv.
  - cbn. by intros [= <- <-].
  - destruct o as [|sockfd]; cbn [run]; cbv beta delta [bind].
    + destruct (sockfd_allocate k) as [fd k1|] eqn:Hrun; [|done].
      apply IH. by apply (live_inv_allocate p k).
    + destruct (sockfd_release sockfd k) as [[] k1|] eqn:Hrun; [|done].
      apply IH. by apply (live_inv_release p k).
Qed.

(** C1: run any sequence of allocate and release calls on a task's list
    of CONFIG_NSOCKET_DESCRIPTORS slots, keeping the descriptors that
    allocate has returned and that have not been released since.  When the
    sequence has run, the slots with a nonzero reference count are at most
    CONFIG_NSOCKET_DESCRIPTORS, the live descriptors are pairwise distinct
    and at most CONFIG_NSOCKET_DESCRIPTORS, and each of them names a slot
    of the list whose count is not 0. *)
Theorem live_descriptors_distinct (ops : list op) (k k' : kernel)
    (p : positive) (l : socketlist) (live : list Z) :
  config_ok ->
  k_sockets k = Some p ->
  k_heap k !! p = Some l ->
  length (sl_sockets l) = CONFIG_NSOCKET_DESCRIPTORS ->
  Forall op_ok ops ->
  run ops [] k = Ret live k' ->
  exists l',
    k_heap k' !! p = Some l' /\
    length (filter (fun s => s_crefs s <> 0%Z) (sl_sockets l'))
      <= CONFIG_NSOCKET_DESCRIPTORS /\
    NoDup live /\
    length live <= CONFIG_NSOCKET_DESCRIPTORS /\
    forall fd, fd ∈ live ->
      exists i s,
        i < CONFIG_NSOCKET_DESCRIPTORS /\
        fd = (Z.of_nat i + __SOCKFD_OFFSET)%Z /\
        sl_sockets l' !! i = Some s /\ s_crefs s <> 0%Z.
Proof.
  intros Hc Hk Hp Hlen Hops Hrun.
  assert (live_inv p k []) as Hinv.
  { exists l. split_and!; [done..|apply NoDup_nil_2|].
    intros fd Hin. by apply elem_of_nil in Hin. }
  destruct (live_inv_run p ops k k' [] live Hc Hops Hinv Hrun)
    as (l' & Hk' & Hp' & Hlen' & Hnd & Hlive).
  exists l'. split_and!; [done| |done| |].
  - rewrite <- Hlen'. apply length_filter.
  - rewrite <- (length_seq CONFIG_NSOCKET_DESCRIPTORS 0).
    rewrite <- (length_fmap (fun i => (Z.of_nat i + __SOCKFD_OFFSET)%Z)).
    apply submseteq_length, NoDup_submseteq; [done|].
    intros fd Hin. destruct (Hlive _ Hin) as (i & s & -> & Hs & _).
    apply list_elem_of_fmap. exists i. split; [done|].
    apply elem_of_seq. apply lookup_lt_Some in Hs. lia.
  - intros fd Hin. destruct (Hlive _ Hin) as (i & s & -> & Hs & H1).
    exists i, s. split_and!; [|done|done|lia].
    apply lookup_lt_Some in Hs. lia.
Qed.

(** ** Lookup *)

(** C8: [sockfd_socket] always returns at once, leaves the whole kernel
    state as it was (no semaphore is waited for, nothing is written), and
    its result is: none when [sockfd - __SOCKFD_OFFSET] is outside
    [0, CONFIG_NSOCKET_DESCRIPTORS) or the caller has no socket list, and
    otherwise the reference to the slot at that index of the caller's
    list. *)
Theorem sockfd_socket_pure (sockfd : Z) (k : kernel) :
  exists r,
    sockfd_socket sockfd k = Ret r k /\
    (~ valid_ndx (sockfd_ndx sockfd) -> r = None) /\
    (k_sockets k = None -> r = None) /\
    (forall p, valid_ndx (sockfd_ndx sockfd) -> k_sockets k = Some p ->
       r = Some (p, Z.to_nat (sockfd_ndx sockfd))).
Proof.
  eexists. split; [apply sockfd_socket_eq|].
  split_and!.
  - intros Hv. by rewrite decide_False.
  - intros ->. by destruct (decide _).
  - intros p Hv ->. by rewrite decide_True.
Qed.

(** C10: the result of [sockfd_socket] does not depend on the contents of
    the list: for an in-range descriptor of a caller that has a list, it is
    the reference to the slot whatever the heap holds, in particular when
    the slot is free (reference count 0) and still all zero as kzmalloc
    left it. *)
Theorem sockfd_socket_ignores_crefs (sockfd : Z) (k : kernel)
    (p : positive) (l : socketlist) :
  valid_ndx (sockfd_ndx sockfd) ->
  k_sockets k = Some p ->
  k_heap k !! p = Some l ->
  sl_sockets l !! Z.to_nat (sockfd_ndx sockfd) = Some socket_zero ->
  s_crefs socket_zero = 0%Z /\
  sockfd_socket sockfd k = Ret (Some (p, Z.to_nat (sockfd_ndx sockfd))) k /\
  forall h,
    sockfd_socket sockfd (set_k_heap h k) =
      Ret (Some (p, Z.to_nat (sockfd_ndx sockfd))) (set_k_heap h k).
Proof.
  intros Hv Hk _ _. split; [done|]. split.
  - rewrite sockfd_socket_eq, decide_True, Hk; done.
  - intros h. rewrite sockfd_socket_eq, decide_True by done. ksimpl.
    by rewrite Hk.
Qed.

(** ** Further properties of the list functions *)

(** X1: [net_alloclist] always returns.  It returns NULL exactly when
    kzmalloc has no memory left, and then the kernel is unchanged.
    Otherwise the address it returns was not in use, every list that
    existed is as it was, and the new list has reference count 1, a
    semaphore initialised to 1 and CONFIG_NSOCKET_DESCRIPTORS all-zero
    slots. *)
Theorem net_alloclist_outcome (k : kernel) :
  (8 <= sl_crefs_bits)%Z ->
  exists r k',
    net_alloclist k = Ret r k' /\
    (r = None <-> k_mem k = 0) /\
    (r = None -> k' = k) /\
    (forall p, r = Some p ->
       k_heap k !! p = None /\
       k_heap k' !! p =
         Some (mk_socketlist 1 1
                 (replicate CONFIG_NSOCKET_DESCRIPTORS socket_zero)) /\
       (forall q, q <> p -> k_heap k' !! q = k_heap k !! q) /\
       k_log k' = k_log k ++ [EvSemInit p 1] /\
       k_mem k = S (k_mem k') /\
       k_sockets k' = k_sockets k).
Proof.
  intros Hb. destruct (k_mem k) as [|m] eqn:Hm.
  - exists None, k. split_and!; [|done|done|done].
    unfold net_alloclist, kzmalloc. munfold. by rewrite Hm.
  - do 2 eexists. split; [by apply net_alloclist_fresh|].
    split_and!; [split; done|done|].
    intros p [= <-]. ksimpl. rewrite wrap_signed_byte by (done || lia).
    split_and!; [|apply lookup_insert_eq| |done..].
    + apply not_elem_of_dom, is_fresh.
    + intros q Hq. by apply lookup_insert_ne.
Qed.

(** X2: taking a reference on a list and dropping it again is a round
    trip: for a live list whose count is positive and can grow by one
    without leaving its field, [net_addreflist] followed by
    [net_releaselist] returns OK twice and leaves the whole kernel exactly
    as it was; nothing is destroyed or freed. *)
Theorem net_addref_release_roundtrip (k : kernel) (p : positive)
    (l : socketlist) :
  (0 < sl_crefs_bits)%Z ->
  k_heap k !! p = Some l ->
  (0 < sl_crefs l)%Z ->
  (sl_crefs l + 1 < 2 ^ (sl_crefs_bits - 1))%Z ->
  exists k1,
    net_addreflist (Some p) k = Ret OK k1 /\
    net_releaselist (Some p) k1 = Ret OK k.
Proof.
  intros Hb Hp Hpos Hmax.
  eexists. split; [by apply net_addreflist_eq|].
  rewrite (wrap_signed_small _ (sl_crefs l + 1)) by lia.
  erewrite net_releaselist_eq by (ksimpl; apply lookup_insert_eq).
  ksimpl. rewrite wrap_signed_small by lia.
  rewrite decide_False by lia. kunfold.
  rewrite insert_insert_eq.
  replace (set_sl_crefs (sl_crefs l + 1 - 1) (set_sl_crefs (sl_crefs l + 1) l))
    with l.
  - rewrite insert_id by done. by destruct k.
  - destruct l. unfold set_sl_crefs. ksimpl. f_equal. lia.
Qed.

Lemma set_sl_crefs_id (l : socketlist) : set_sl_crefs (sl_crefs l) l = l.
Proof. by destruct l. Qed.

Lemma net_releaselist_step (k : kernel) (p : positive) (l : socketlist)
    (c : Z) :
  (0 < sl_crefs_bits)%Z ->
  k_heap k !! p = Some l ->
  sl_crefs l = c ->
  (1 < c < 2 ^ (sl_crefs_bits - 1))%Z ->
  net_releaselist (Some p) k =
    Ret OK (set_k_heap (<[p:=set_sl_crefs (c - 1) l]> (k_heap k)) k).
Proof.
  intros Hb Hp <- Hc. rewrite (net_releaselist_eq k p l Hp).
  rewrite wrap_signed_small by lia. by rewrite decide_False by lia.
Qed.

Lemma net_releaselist_countdown_keeps (p : positive) (j : nat) :
  (0 < sl_crefs_bits)%Z ->
  forall (c : nat) (k : kernel) (l : socketlist),
    k_heap k !! p = Some l ->
    sl_crefs l = Z.of_nat c ->
    (Z.of_nat c < 2 ^ (sl_crefs_bits - 1))%Z ->
    j < c ->
    exists k',
      repeat_call j (net_releaselist (Some p)) k = Ret tt k' /\
      k_heap k' !! p = Some (set_sl_crefs (Z.of_nat (c - j)) l) /\
      k_log k' = k_log k /\ k_mem k' = k_mem k.
Proof.
  intros Hb. induction j as [|j IH]; intros c k l Hp Hc Hmax Hj.
  - exists k. split_and!; [done| |done..].
    rewrite Nat.sub_0_r, <- Hc. by rewrite set_sl_crefs_id.
  - cbn [repeat_call]. cbv beta delta [bind].
    rewrite (net_releaselist_step k p l (Z.of_nat c)) by (done || lia).
    destruct (IH (c - 1) (set_k_heap (<[p:=set_sl_crefs (Z.of_nat c - 1) l]>
                                        (k_heap k)) k)
                (set_sl_crefs (Z.of_nat c - 1) l))
      as (k' & Hrun & Hp' & Hlog & Hmem);
      [ksimpl; apply lookup_insert_eq|ksimpl; lia|lia|lia|].
    exists k'. split_and!; [done| |done..].
    rewrite Hp'. replace (c - 1 - j) with (c - S j) by lia. done.
Qed.

Lemma net_releaselist_countdown_frees (p : positive) (c : nat) :
  (0 < sl_crefs_bits)%Z ->
  forall (k : kernel) (l : socketlist),
    k_heap k !! p = Some l ->
    sl_crefs l = Z.of_nat (S c) ->
    (Z.of_nat (S c) < 2 ^ (sl_crefs_bits - 1))%Z ->
    exists k',
      repeat_call (S c) (net_releaselist (Some p)) k = Ret tt k' /\
      k_heap k' !! p = None /\
      k_log k' = k_log k ++ [EvSemDestroy p; EvFree p] /\
      k_mem k' = S (k_mem k).
Proof.
  intros Hb. induction c as [|c IH]; intros k l Hp Hc Hmax.
  - cbn [repeat_call]. cbv beta delta [bind ret].
    rewrite (net_releaselist_eq k p l Hp), Hc.
    rewrite wrap_signed_small by lia. rewrite decide_True by lia.
    eexists. split; [done|]. ksimpl. split_and!; [|done..].
    apply lookup_delete_eq.
  - cbn [repeat_call]. cbv beta delta [bind].
    rewrite (net_releaselist_step k p l (Z.of_nat (S (S c)))) by (done || lia).
    destruct (IH (set_k_heap (<[p:=set_sl_crefs (Z.of_nat (S (S c)) - 1) l]>
                                (k_heap k)) k)
                (set_sl_crefs (Z.of_nat (S (S c)) - 1) l))
      as (k' & Hrun & Hp' & Hlog & Hmem);
      [ksimpl; apply lookup_insert_eq|ksimpl; lia|lia|].
    exists k'. by split_and!.
Qed.

(** X3: a list whose count is [c] (positive, and within its field) lives
    through exactly [c] calls of [net_releaselist]: after any [j < c] of
    them it is still in the heap with count [c - j] and nothing has been
    destroyed or freed; the [c]-th call destroys its semaphore and frees
    it, once. *)
Theorem net_releaselist_countdown (k : kernel) (p : positive)
    (l : socketlist) (c j : nat) :
  (0 < sl_crefs_bits)%Z ->
  k_heap k !! p = Some l ->
  sl_crefs l = Z.of_nat c ->
  (Z.of_nat c < 2 ^ (sl_crefs_bits - 1))%Z ->
  j < c ->
  (exists k',
     repeat_call j (net_releaselist (Some p)) k = Ret tt k' /\
     k_heap k' !! p = Some (set_sl_crefs (Z.of_nat (c - j)) l) /\
     k_log k' = k_log k /\ k_mem k' = k_mem k) /\
  (exists k',
     repeat_call c (net_releaselist (Some p)) k = Ret tt k' /\
     k_heap k' !! p = None /\
     k_log k' = k_log k ++ [EvSemDestroy p; EvFree p] /\
     k_mem k' = S (k_mem k)).
Proof.
  intros Hb Hp Hc Hmax Hj.
  split; [by apply net_releaselist_countdown_keeps|].
  destruct c as [|c]; [lia|].
  by apply (net_releaselist_countdown_frees p c Hb k l).
Qed.

(** ** Further properties of the descriptor functions *)

Lemma set_sl_sockets_id (l : socketlist) : set_sl_sockets (sl_sockets l) l = l.
Proof. by destruct l. Qed.

Lemma sockfd_release_countdown_gen (p : positive) (i : nat)
    (tr : list sem_result) (j : nat) :
  config_ok ->
  forall (c : nat) (k : kernel) (l : socketlist) (s : socket),
    k_sockets k = Some p ->
    k_heap k !! p = Some l ->
    length (sl_sockets l) = CONFIG_NSOCKET_DESCRIPTORS ->
    sl_sockets l !! i = Some s ->
    s_crefs s = Z.of_nat c ->
    (Z.of_nat c <= INT_MAX)%Z ->
    (c = 0 -> s = socket_zero) ->
    k_semwait k = replicate j SemOK ++ tr ->
    exists k',
      repeat_call j (sockfd_release (Z.of_nat i + __SOCKFD_OFFSET)) k
        = Ret tt k' /\
      k_heap k' !! p =
        Some (set_sl_sockets
                (<[i:=if decide (j < c)
                      then set_s_crefs (Z.of_nat (c - j)) s
                      else socket_zero]> (sl_sockets l)) l) /\
      k_semwait k' = tr /\ k_sockets k' = Some p.
Proof.
  intros Hcfg. induction j as [|j IH];
    intros c k l s Hk Hp Hlen Hs Hc Hmax Hzero Htr.
  - exists k. split_and!; [done| |done..].
    rewrite Hp. f_equal.
    rewrite <- (set_sl_sockets_id l) at 1. f_equal.
    symmetry. apply list_insert_id. rewrite Hs. f_equal.
    destruct (decide (0 < c)) as [Hpos|Hnpos].
    + rewrite Nat.sub_0_r, <- Hc. by destruct s.
    + apply Hzero. lia.
  - pose proof (lookup_lt_Some _ _ _ Hs) as Hi. rewrite Hlen in Hi.
    destruct (descriptor_valid i Hi Hcfg) as [Hv Hndx].
    cbn [repeat_call]. cbv beta delta [bind].
    rewrite (sockfd_release_slot p l k 0 (replicate j SemOK ++ tr) _ i s)
      by done.
    set (s1 := released s).
    set (l1 := set_sl_sockets (<[i:=s1]> (sl_sockets l)) l).
    assert (Hs1 : s_crefs s1 = Z.of_nat (c - 1) /\
                  (c - 1 = 0 -> s1 = socket_zero) /\
                  (1 < c -> s1 = set_s_crefs (Z.of_nat (c - 1)) s)).
    { unfold s1, released. destruct (decide (1 < s_crefs s)%Z) as [Hgt|Hle].
      - rewrite to_int_small
          by (unfold int_range, INT_MIN, INT_MAX in *; lia).
        ksimpl. split_and!; [lia|lia|]. intros _. f_equal. lia.
      - split_and!; [unfold socket_zero; ksimpl; lia|done|lia]. }
    destruct Hs1 as (Hc1 & Hz1 & Hs1).
    destruct (IH (c - 1) (after p l1 (errno_after 0 k) (replicate j SemOK ++ tr) k)
                l1 s1)
      as (k' & Hrun & Hp' & Htr' & Hk');
      [done|apply lookup_insert_eq|unfold l1; ksimpl; by rewrite length_insert
      |unfold l1; ksimpl; apply list_lookup_insert_eq; lia
      |done|lia|done|done|].
    exists k'. split_and!; [done| |done..].
    rewrite Hp'. unfold l1. ksimpl. rewrite list_insert_insert_eq.
    unfold set_sl_sockets. ksimpl. do 3 f_equal.
    destruct (decide (S j < c)) as [Hlt|Hge].
    + rewrite decide_True by lia. rewrite Hs1 by lia.
      unfold set_s_crefs. ksimpl. f_equal. lia.
    + by rewrite decide_False by lia.
Qed.

(** X4: a slot whose count is [c >= 1] is given up by exactly [c] calls
    of [sockfd_release] on its descriptor: after [j < c] calls the count is
    [c - j] and the rest of the slot is untouched; after [c] calls, and
    after any further ones, the slot is all zero.  Every call here finds
    the semaphore free. *)
Theorem sockfd_release_countdown (k : kernel) (p : positive)
    (l : socketlist) (i : nat) (s : socket) (c j : nat)
    (tr : list sem_result) :
  config_ok ->
  k_sockets k = Some p ->
  k_heap k !! p = Some l ->
  length (sl_sockets l) = CONFIG_NSOCKET_DESCRIPTORS ->
  sl_sockets l !! i = Some s ->
  s_crefs s = Z.of_nat c ->
  1 <= c ->
  (Z.of_nat c <= INT_MAX)%Z ->
  k_semwait k = replicate j SemOK ++ tr ->
  exists k',
    repeat_call j (sockfd_release (Z.of_nat i + __SOCKFD_OFFSET)) k
      = Ret tt k' /\
    k_heap k' !! p =
      Some (set_sl_sockets
              (<[i:=if decide (j < c)
                    then set_s_crefs (Z.of_nat (c - j)) s
                    else socket_zero]> (sl_sockets l)) l) /\
    k_semwait k' = tr.
Proof.
  intros Hcfg Hk Hp Hlen Hs Hc Hpos Hmax Htr.
  destruct (sockfd_release_countdown_gen p i tr j Hcfg c k l s)
    as (k' & Hrun & Hp' & Htr' & _); [done..|lia|done|].
  by exists k'.
Qed.

(** The slots of a table whose first [j] slots have been handed out. *)
Lemma filled_lookup_free (j m : nat) :
  (replicate j socket_taken ++ replicate (S m) socket_zero) !! j
    = Some socket_zero.
Proof.
  rewrite lookup_app_r by (rewrite length_replicate; lia).
  rewrite length_replicate, Nat.sub_diag. done.
Qed.

Lemma filled_lookup_used (j m i : nat) (s : socket) :
  i < j ->
  (replicate j socket_taken ++ replicate m socket_zero) !! i = Some s ->
  s_crefs s <> 0%Z.
Proof.
  intros Hi. rewrite lookup_app_l by (rewrite length_replicate; lia).
  intros Hs. apply lookup_replicate_1 in Hs as [-> _].
  unfold socket_taken. ksimpl. lia.
Qed.

Lemma filled_insert (j m : nat) :
  <[j:=socket_taken]> (replicate j socket_taken ++ replicate (S m) socket_zero)
    = replicate (S j) socket_taken ++ replicate m socket_zero.
Proof.
  rewrite insert_app_r_alt by (rewrite length_replicate; lia).
  rewrite length_replicate, Nat.sub_diag. cbn [replicate].
  change (<[0:=socket_taken]> (socket_zero :: replicate m socket_zero))
    with (socket_taken :: replicate m socket_zero).
  rewrite replicate_cons_app. by rewrite <- app_assoc.
Qed.

Lemma sockfd_allocate_fill (p : positive) (tr : list sem_result) (n : nat) :
  config_ok ->
  forall (j : nat) (k : kernel) (l : socketlist) (live : list Z),
    k_sockets k = Some p ->
    k_heap k !! p = Some l ->
    sl_sockets l =
      replicate j socket_taken
        ++ replicate (CONFIG_NSOCKET_DESCRIPTORS - j) socket_zero ->
    j + n <= CONFIG_NSOCKET_DESCRIPTORS ->
    k_semwait k = replicate n SemOK ++ tr ->
    exists k',
      run (replicate n OpAllocate) live k =
        Ret (reverse ((fun i => (Z.of_nat i + __SOCKFD_OFFSET)%Z) <$> seq j n)
               ++ live) k' /\
      k_sockets k' = Some p /\
      k_heap k' !! p =
        Some (set_sl_sockets
                (replicate (j + n) socket_taken
                   ++ replicate (CONFIG_NSOCKET_DESCRIPTORS - (j + n))
                        socket_zero) l) /\
      k_semwait k' = tr.
Proof.
  intros Hcfg. induction n as [|n IH]; intros j k l live Hk Hp Hss Hj Htr.
  - exists k. rewrite Nat.add_0_r, <- Hss, set_sl_sockets_id. by split_and!.
  - cbn [replicate run]. cbv beta delta [bind].
    destruct (CONFIG_NSOCKET_DESCRIPTORS - j) as [|m] eqn:Hm; [lia|].
    rewrite (sockfd_allocate_found p l k 0 (replicate n SemOK ++ tr) j
               socket_zero); [|done|done|done|lia| | |].
    + rewrite descriptor_no_wrap by (done || lia).
      rewrite decide_False by (destruct Hcfg; unfold ERROR; lia).
      rewrite Hss, filled_insert.
      destruct (IH (S j)
                  (after p (set_sl_sockets
                              (replicate (S j) socket_taken
                                 ++ replicate m socket_zero) l)
                         (errno_after 0 k) (replicate n SemOK ++ tr) k)
                  (set_sl_sockets
                     (replicate (S j) socket_taken ++ replicate m socket_zero) l)
                  ((Z.of_nat j + __SOCKFD_OFFSET)%Z :: live))
        as (k' & Hrun & Hk' & Hp' & Htr');
        [done|apply lookup_insert_eq| |lia|done|].
      { ksimpl. do 2 f_equal. lia. }
      exists k'. split_and!; [|done| |done].
      * rewrite Hrun. f_equal. cbn [seq fmap list_fmap].
        rewrite reverse_cons, <- app_assoc. done.
      * rewrite Hp'. unfold set_sl_sockets. ksimpl.
        do 3 f_equal; [f_equal|f_equal]; lia.
    + rewrite Hss. apply filled_lookup_free.
    + done.
    + intros i s' Hi. rewrite Hss. by apply filled_lookup_used.
Qed.

(** X5: on a list whose slots are all free, CONFIG_NSOCKET_DESCRIPTORS
    calls of [sockfd_allocate] in a row all succeed and return the
    descriptors [__SOCKFD_OFFSET], [__SOCKFD_OFFSET + 1], ... in this
    order (the list of live descriptors holds the latest first); the table
    is then full and one more call returns ERROR.  Every call here finds
    the semaphore free. *)
Theorem sockfd_allocate_fills_table (k : kernel) (p : positive)
    (l : socketlist) (tr : list sem_result) :
  config_ok ->
  k_sockets k = Some p ->
  k_heap k !! p = Some l ->
  sl_sockets l = replicate CONFIG_NSOCKET_DESCRIPTORS socket_zero ->
  k_semwait k = replicate (S CONFIG_NSOCKET_DESCRIPTORS) SemOK ++ tr ->
  exists k1 k2,
    run (replicate CONFIG_NSOCKET_DESCRIPTORS OpAllocate) [] k =
      Ret (reverse ((fun i => (Z.of_nat i + __SOCKFD_OFFSET)%Z)
                      <$> seq 0 CONFIG_NSOCKET_DESCRIPTORS)) k1 /\
    k_heap k1 !! p =
      Some (set_sl_sockets
              (replicate CONFIG_NSOCKET_DESCRIPTORS socket_taken) l) /\
    sockfd_allocate k1 = Ret ERROR k2 /\
    k_heap k2 = k_heap k1.
Proof.
  intros Hcfg Hk Hp Hss Htr.
  destruct (sockfd_allocate_fill p (SemOK :: tr) CONFIG_NSOCKET_DESCRIPTORS
              Hcfg 0 k l [])
    as (k1 & Hrun & Hk1 & Hp1 & Htr1); [done|done| |lia| |].
  { by rewrite Nat.sub_0_r. }
  { rewrite Htr. rewrite replicate_S_end, <- app_assoc. done. }
  rewrite app_nil_r in Hrun. cbn [Nat.add] in Hp1.
  rewrite Nat.sub_diag in Hp1. cbn [replicate] in Hp1.
  rewrite app_nil_r in Hp1.
  exists k1. eexists. split_and!; [done|done| |].
  - eapply (sockfd_allocate_full p _ k1 0 tr); [done|exact Hp1|done| |].
    + ksimpl. rewrite length_replicate. lia.
    + ksimpl. intros i s' _ Hs. apply lookup_replicate_1 in Hs as [-> _].
      unfold socket_taken. ksimpl. lia.
  - unfold after. ksimpl. by apply insert_id.
Qed.

(** X6: allocating a descriptor and releasing it again is a round trip on
    the table: when [sockfd_allocate] has returned a descriptor from a list
    that satisfies the slot invariant, [sockfd_release] of that descriptor
    returns (the semaphore being free) and every list in the heap is what
    it was before the allocation. *)
Theorem sockfd_allocate_release_roundtrip (k k1 : kernel) (p : positive)
    (l : socketlist) (fd : Z) (n : nat) (tr : list sem_result) :
  config_ok ->
  k_sockets k = Some p ->
  k_heap k !! p = Some l ->
  list_inv l ->
  sockfd_allocate k = Ret fd k1 ->
  fd <> ERROR ->
  acquires n tr k1 ->
  exists k2,
    sockfd_release fd k1 = Ret tt k2 /\
    k_heap k2 = k_heap k.
Proof.
  intros Hcfg Hk Hp [Hlen Hinv] Hrun Hfd Htr.
  apply sockfd_allocate_inv in Hrun
    as [(_ & -> & _)|(p' & l' & e & tr0 & Hk' & Hp'
                      & [(-> & _)|(i & s & Hi & Hs & Hz & _ & -> & ->)])];
    [done|done|].
  assert (p' = p) as -> by congruence.
  assert (l' = l) as -> by congruence.
  rewrite descriptor_no_wrap in * by done.
  destruct (descriptor_valid i Hi Hcfg) as [Hv Hndx].
  eexists. split.
  - apply (sockfd_release_slot p
             (set_sl_sockets (<[i:=socket_taken]> (sl_sockets l)) l)
             _ n tr _ i socket_taken);
      [done|apply lookup_insert_eq|done|done|done|].
    ksimpl. apply list_lookup_insert_eq. lia.
  - unfold after, released, socket_taken. ksimpl.
    rewrite decide_False by lia.
    rewrite insert_insert_eq, list_insert_insert_eq.
    destruct (Hinv _ _ Hs) as [_ Hzero]. rewrite <- (Hzero Hz).
    rewrite list_insert_id by done.
    apply insert_id. rewrite Hp. by destruct l.
Qed.

(** X7: a descriptor that [sockfd_allocate] returns resolves: right after
    the call [sockfd_socket] gives a reference for it, the slot behind the
    reference has count 1 and is otherwise all zero, and the descriptor is
    the index of that slot plus __SOCKFD_OFFSET. *)
Theorem sockfd_allocate_then_socket (k k' : kernel) (fd : Z) :
  config_ok ->
  sockfd_allocate k = Ret fd k' ->
  fd <> ERROR ->
  exists p i,
    sockfd_socket fd k' = Ret (Some (p, i)) k' /\
    load_socket p i k' = Ret (mk_socket 1 conn_zero) k' /\
    fd = (Z.of_nat i + __SOCKFD_OFFSET)%Z.
Proof.
  intros Hcfg Hrun Hfd.
  apply sockfd_allocate_inv in Hrun
    as [(_ & -> & _)|(p & l & e & tr & Hk & Hp
                      & [(-> & _)|(i & s & Hi & Hs & Hz & _ & -> & ->)])];
    [done|done|].
  rewrite descriptor_no_wrap in * by done.
  destruct (descriptor_valid i Hi Hcfg) as [Hv Hndx].
  pose proof (lookup_lt_Some _ _ _ Hs) as Hlt.
  exists p, i. split_and!; [| |done].
  - rewrite sockfd_socket_eq, decide_True by done. unfold after. ksimpl.
    by rewrite Hk, Hndx.
  - munfold. unfold after. kred. done.
Qed.

(** X8: descriptors and slots correspond one to one.  For a caller with a
    list and an [int] argument, [sockfd_socket] gives the reference to slot
    [i] if and only if the argument is [i + __SOCKFD_OFFSET] with [i] below
    CONFIG_NSOCKET_DESCRIPTORS; the subtraction of the offset cannot wrap
    an out-of-range argument into the table. *)
Theorem sockfd_socket_iff (k : kernel) (p : positive) (sockfd : Z)
    (i : nat) :
  config_ok ->
  int_range sockfd ->
  k_sockets k = Some p ->
  sockfd_socket sockfd k = Ret (Some (p, i)) k <->
  (sockfd = (Z.of_nat i + __SOCKFD_OFFSET)%Z /\
   i < CONFIG_NSOCKET_DESCRIPTORS).
Proof.
  intros Hcfg Hint Hk. rewrite sockfd_socket_eq, Hk. split.
  - destruct (decide (valid_ndx (sockfd_ndx sockfd))) as [Hv|Hv]; [|done].
    intros [= <-].
    rewrite (sockfd_ndx_inv sockfd Hcfg Hint Hv) at 1.
    unfold valid_ndx in Hv. split; lia.
  - intros [-> Hi]. destruct (descriptor_valid i Hi Hcfg) as [Hv Hndx].
    by rewrite decide_True, Hndx.
Qed.

(** X10: a failed [sockfd_allocate] has changed no list, and it fails for
    one of two reasons only: the caller has no list, or each of the
    CONFIG_NSOCKET_DESCRIPTORS slots of its list is in use. *)
Theorem sockfd_allocate_error_inv (k k' : kernel) :
  config_ok ->
  sockfd_allocate k = Ret ERROR k' ->
  k_heap k' = k_heap k /\
  (k_sockets k = None \/
   exists p l,
     k_sockets k = Some p /\ k_heap k !! p = Some l /\
     forall j, j < CONFIG_NSOCKET_DESCRIPTORS ->
       exists s, sl_sockets l !! j = Some s /\ s_crefs s <> 0%Z).
Proof.
  intros Hcfg Hrun.
  apply sockfd_allocate_inv in Hrun
    as [(Hk & _ & ->)|(p & l & e & tr & Hk & Hp
                       & [(_ & -> & Hfull)|(i & s & Hi & _ & _ & _ & Hfd & _)])].
  - split; [done|by left].
  - split; [unfold after; ksimpl; by apply insert_id|].
    right. by exists p, l.
  - rewrite descriptor_no_wrap in Hfd by done.
    destruct Hcfg. unfold ERROR in Hfd. lia.
Qed.

Lemma frame_refl (p : positive) (k : kernel) : frame p k k.
Proof. split_and!; [done..|]. intros l Hp. by exists l. Qed.

Lemma frame_trans (p : positive) (k k1 k2 : kernel) :
  frame p k k1 -> frame p k1 k2 -> frame p k k2.
Proof.
  intros (Hs & Hm & Hi & Hl & Ho & Hp) (Hs' & Hm' & Hi' & Hl' & Ho' & Hp').
  split_and!; [congruence..| |].
  - intros q Hq. by rewrite Ho', Ho.
  - intros l Hl0. destruct (Hp l Hl0) as (l1 & Hl1 & ? & ? & ?).
    destruct (Hp' l1 Hl1) as (l2 & Hl2 & ? & ? & ?).
    exists l2. split_and!; congruence.
Qed.

Lemma frame_after (p : positive) (k : kernel) (l : socketlist)
    (ss : list socket) (e : Z) (tr : list sem_result) :
  k_heap k !! p = Some l ->
  length ss = length (sl_sockets l) ->
  frame p k (after p (set_sl_sockets ss l) e tr k).
Proof.
  intros Hp Hlen. unfold after. split_and!; ksimpl; [done..| |].
  - intros q Hq. by apply lookup_insert_ne.
  - intros l0 Hl0. assert (l0 = l) as -> by congruence.
    eexists. split; [apply lookup_insert_eq|]. by ksimpl.
Qed.

Lemma sockfd_allocate_frame (p : positive) (k k' : kernel) (fd : Z) :
  k_sockets k = Some p ->
  sockfd_allocate k = Ret fd k' ->
  frame p k k'.
Proof.
  intros Hk Hrun.
  apply sockfd_allocate_inv in Hrun
    as [(_ & _ & ->)|(p' & l & e & tr & Hk' & Hp
                      & [(_ & -> & _)|(i & s & _ & _ & _ & _ & _ & ->)])].
  - apply frame_refl.
  - assert (p' = p) as -> by congruence.
    rewrite <- (set_sl_sockets_id l) at 1. by apply frame_after.
  - assert (p' = p) as -> by congruence.
    apply frame_after; [done|apply length_insert].
Qed.

Lemma sockfd_release_frame (p : positive) (k k' : kernel) (sockfd : Z) :
  k_sockets k = Some p ->
  sockfd_release sockfd k = Ret tt k' ->
  frame p k k'.
Proof.
  intros Hk Hrun.
  apply sockfd_release_inv in Hrun
    as [(-> & _)|(p' & l & e & tr & s & _ & Hk' & Hp & _ & ->)].
  - apply frame_refl.
  - assert (p' = p) as -> by congruence.
    apply frame_after; [done|apply length_insert].
Qed.

(** X9: whatever sequence of [sockfd_allocate] and [sockfd_release] calls
    a task runs, when it has run the semaphore of the task's list has the
    count it had (every wait is matched by a post, on the early return of
    allocate too), the reference count of the list and its number of slots
    are unchanged, no other list in the heap has been touched, nothing has
    been allocated, destroyed or freed, and the interrupt flag and the
    task's list pointer are as before. *)
Theorem run_frame (ops : list op) (k k' : kernel) (p : positive)
    (live live' : list Z) :
  k_sockets k = Some p ->
  run ops live k = Ret live' k' ->
  frame p k k'.
Proof.
  revert k live. induction ops as [|o ops IH]; intros k live Hk.
  - cbn. intros [= _ <-]. apply frame_refl.
  - destruct o as [|sockfd]; cbn [run]; cbv beta delta [bind].
    + destruct (sockfd_allocate k) as [fd k1|] eqn:Hrun; [|done].
      pose proof (sockfd_allocate_frame p k k1 fd Hk Hrun) as Hf.
      intros Hrest. apply (frame_trans p k k1 k'); [done|].
      eapply (IH k1); [|exact Hrest]. destruct Hf as [-> _]. done.
    + destruct (sockfd_release sockfd k) as [[] k1|] eqn:Hrun; [|done].
      pose proof (sockfd_release_frame p k k1 sockfd Hk Hrun) as Hf.
      intros Hrest. apply (frame_trans p k k1 k'); [done|].
      eapply (IH k1); [|exact Hrest]. destruct Hf as [-> _]. done.
Qed.



Lemma in_use_cons (x : socket) (ss : list socket) :
  in_use (x :: ss) =
    (if decide (s_crefs x <> 0%Z) then 1 else 0) + in_use ss.
Proof.
  unfold in_use. rewrite filter_cons. by destruct (decide _).
Qed.

(** Replacing one slot changes the number of slots in use by what the old
    and the new slot contribute. *)
Lemma in_use_insert (ss : list socket) (i : nat) (s s' : socket) :
  ss !! i = Some s ->
  in_use (<[i:=s']> ss) + (if decide (s_crefs s <> 0%Z) then 1 else 0)
    = in_use ss + (if decide (s_crefs s' <> 0%Z) then 1 else 0).
Proof.
  revert i. induction ss as [|x ss IH]; intros [|i] Hs; try done.
  - injection Hs as ->. change (<[0:=s']> (s :: ss)) with (s' :: ss).
    rewrite !in_use_cons. repeat case_decide; lia.
  - change (<[S i:=s']> (x :: ss)) with (x :: <[i:=s']> ss).
    cbn in Hs. specialize (IH i Hs).
    rewrite !in_use_cons. repeat case_decide; lia.
Qed.

(** X12: the number of slots in use is accounted for call by call.  A
    successful [sockfd_allocate] raises it by exactly one.  A
    [sockfd_release] that returns lowers it by exactly one when the count
    of the slot was 1, and leaves it as it was when the count was above 1
    (the slot stays in use) or 0 (the slot was free already). *)
Theorem in_use_accounting (k : kernel) (p : positive) (l : socketlist) :
  k_sockets k = Some p ->
  k_heap k !! p = Some l ->
  (forall fd k',
     sockfd_allocate k = Ret fd k' -> fd <> ERROR ->
     exists l',
       k_heap k' !! p = Some l' /\
       in_use (sl_sockets l') = S (in_use (sl_sockets l))) /\
  (forall sockfd k' s,
     sockfd_release sockfd k = Ret tt k' ->
     valid_ndx (sockfd_ndx sockfd) ->
     sl_sockets l !! Z.to_nat (sockfd_ndx sockfd) = Some s ->
     int_range (s_crefs s) ->
     exists l',
       k_heap k' !! p = Some l' /\
       (s_crefs s = 1%Z -> S (in_use (sl_sockets l')) = in_use (sl_sockets l)) /\
       ((1 < s_crefs s)%Z \/ s_crefs s = 0%Z ->
        in_use (sl_sockets l') = in_use (sl_sockets l))).
Proof.
  intros Hk Hp. split.
  - intros fd k' Hrun Hfd.
    apply sockfd_allocate_inv in Hrun
      as [(_ & -> & _)|(p' & l' & e & tr & Hk' & Hp'
                        & [(-> & _)|(i & s & Hi & Hs & Hz & _ & -> & ->)])];
      [done|done|].
    assert (p' = p) as -> by congruence.
    assert (l' = l) as -> by congruence.
    eexists. split; [apply lookup_insert_eq|]. ksimpl.
    pose proof (in_use_insert (sl_sockets l) i s socket_taken Hs) as Hcount.
    rewrite decide_False in Hcount by (intros H; by apply H).
    rewrite decide_True in Hcount by (unfold socket_taken; ksimpl; lia).
    lia.
  - intros sockfd k' s Hrun Hv Hs Hint.
    apply sockfd_release_inv in Hrun
      as [(_ & [Hno|Hno])|(p' & l' & e & tr & s' & _ & Hk' & Hp' & Hs' & ->)];
      [done|congruence|].
    assert (p' = p) as -> by congruence.
    assert (l' = l) as -> by congruence.
    assert (s' = s) as -> by congruence.
    eexists. split; [apply lookup_insert_eq|]. ksimpl.
    pose proof (in_use_insert (sl_sockets l) _ s (released s) Hs) as Hcount.
    unfold released in *. split.
    + intros H1. rewrite decide_False in Hcount by lia.
      rewrite decide_True in Hcount by lia.
      rewrite decide_False in Hcount
        by (unfold socket_zero; ksimpl; intros H; by apply H).
      rewrite decide_False by lia. lia.
    + intros [Hgt|H0].
      * rewrite decide_True in Hcount by done. rewrite decide_True by done.
        ksimpl.
        rewrite to_int_small in *
          by (unfold int_range, INT_MIN, INT_MAX in *; lia).
        rewrite !decide_True in Hcount by lia. lia.
      * rewrite decide_False in Hcount by lia. rewrite decide_False by lia.
        rewrite decide_False in Hcount by (intros H; by apply H).
        rewrite decide_False in Hcount
          by (unfold socket_zero; ksimpl; intros H; by apply H).
        lia.
Qed.

(** X13: each call touches one slot at most.  When [sockfd_allocate]
    returns, every slot other than the one whose descriptor it returned is
    as it was (all of them when it returned ERROR); when [sockfd_release]
    returns, every slot other than the one its argument names is as it
    was. *)
Theorem one_slot_only (k : kernel) (p : positive) (l : socketlist) :
  config_ok ->
  k_sockets k = Some p ->
  k_heap k !! p = Some l ->
  (forall fd k',
     sockfd_allocate k = Ret fd k' ->
     exists l',
       k_heap k' !! p = Some l' /\
       forall j, (Z.of_nat j + __SOCKFD_OFFSET)%Z <> fd ->
         sl_sockets l' !! j = sl_sockets l !! j) /\
  (forall sockfd k',
     sockfd_release sockfd k = Ret tt k' ->
     exists l',
       k_heap k' !! p = Some l' /\
       forall j, j <> Z.to_nat (sockfd_ndx sockfd) ->
         sl_sockets l' !! j = sl_sockets l !! j).
Proof.
  intros Hcfg Hk Hp. split.
  - intros fd k' Hrun.
    apply sockfd_allocate_inv in Hrun
      as [(Hk' & _)|(p' & l' & e & tr & Hk' & Hp'
                     & [(_ & -> & _)|(i & s & Hi & _ & _ & _ & -> & ->)])];
      [congruence| |].
    + assert (p' = p) as -> by congruence.
      assert (l' = l) as -> by congruence.
      exists l. split; [apply lookup_insert_eq|done].
    + assert (p' = p) as -> by congruence.
      assert (l' = l) as -> by congruence.
      eexists. split; [apply lookup_insert_eq|]. ksimpl.
      intros j Hj. rewrite descriptor_no_wrap in Hj by done.
      apply list_lookup_insert_ne. lia.
  - intros sockfd k' Hrun.
    apply sockfd_release_inv in Hrun
      as [(-> & _)|(p' & l' & e & tr & s & _ & Hk' & Hp' & _ & ->)].
    + by exists l.
    + assert (p' = p) as -> by congruence.
      assert (l' = l) as -> by congruence.
      eexists. split; [apply lookup_insert_eq|]. ksimpl.
      intros j Hj. by apply list_lookup_insert_ne.
Qed.

End SocketTable.

Arguments Ret {conn A} a k.
Arguments Stop {conn A} s.
Arguments mk_socket {conn} s_crefs s_conn.
Arguments s_crefs {conn} s.
Arguments s_conn {conn} s.
Arguments mk_socketlist {conn} sl_sem sl_crefs sl_sockets.
Arguments sl_sem {conn} s.
Arguments sl_crefs {conn} s.
Arguments sl_sockets {conn} s.
Arguments mk_kernel {conn} k_heap k_sockets k_errno k_semwait k_mem k_irq k_log.
Arguments k_heap {conn} k.
Arguments k_sockets {conn} k.
Arguments k_errno {conn} k.
Arguments k_semwait {conn} k.
Arguments k_mem {conn} k.
Arguments k_irq {conn} k.
Arguments k_log {conn} k.
Arguments set_k_heap {conn} h k.
Arguments set_k_semwait {conn} tr k.
Arguments set_k_errno {conn} e k.
Arguments set_s_crefs {conn} c s.
Arguments set_sl_sockets {conn} ss l.
Arguments set_sl_crefs {conn} c l.
Arguments after {conn} p l' e tr k.
Arguments acquires {conn} n tr k.

(** ** A concrete table: four descriptors from 3 on *)

Definition ex_socket_zero : socket Z := socket_zero Z 0%Z.

Definition ex_list (ss : list (socket Z)) : socketlist Z :=
  mk_socketlist 1 1 ss.

(** A task whose list, at address 1, holds the slots [ss]; [tr] are the
    results of the coming [sem_wait] calls. *)
Definition ex_kernel (ss : list (socket Z)) (tr : list sem_result)
  : kernel Z :=
  mk_kernel {[ 1%positive := ex_list ss ]} (Some 1%positive) 0 tr 8 true [].

(** A context that belongs to no task. *)
Definition ex_nolist : kernel Z :=
  mk_kernel ∅ None 0 [SemOK] 8 true [].

Definition ex_fresh : list (socket Z) := replicate 4 ex_socket_zero.
Definition ex_full : list (socket Z) := replicate 4 (mk_socket 1 0%Z).
(** Slot 0 in use, slot 1 shared by two holders, slots 2 and 3 free. *)
Definition ex_shared : list (socket Z) :=
  [mk_socket 1 0%Z; mk_socket 2 7%Z; ex_socket_zero; ex_socket_zero].

(** A list that three tasks share. *)
Definition ex_kernel3 : kernel Z :=
  mk_kernel {[ 1%positive := mk_socketlist 1 3 ex_fresh ]} (Some 1%positive)
            0 [] 8 true [].

Definition ex_ops : list op :=
  [OpAllocate; OpAllocate; OpRelease 3; OpAllocate; OpAllocate].
Definition ex_waits : list sem_result :=
  [SemErr EINTR; SemOK; SemOK; SemOK; SemOK; SemOK].

Abbreviation ex_allocate := (sockfd_allocate 4 3 Z 0%Z true).
Abbreviation ex_release := (sockfd_release 4 3 Z 0%Z true).
Abbreviation ex_run := (run 4 3 Z 0%Z true).

Lemma ex_config_ok : config_ok 4 3.
Proof. unfold config_ok, INT_MAX. lia. Qed.

Lemma ex_kernel_inv (tr : list sem_result) :
  kernel_inv 4 Z 0%Z (ex_kernel ex_fresh tr).
Proof.
  intros p l Hp. cbn [ex_kernel k_heap] in Hp.
  apply (proj1 (lookup_singleton_Some _ _ _ _)) in Hp as [_ <-].
  apply (list_inv_zero 4 Z 0%Z 1 1).
Qed.

(** The scenario of the specification: four allocations give 3, 4, 5, 6,
    the fifth fails, and after the release of 4 the next gives 4 again. *)
Example ex_scenario :
  exists k',
    ex_run [OpAllocate; OpAllocate; OpAllocate; OpAllocate; OpAllocate;
            OpRelease 4; OpAllocate] []
      (ex_kernel ex_fresh (replicate 7 SemOK)) = Ret [4; 6; 5; 3]%Z k'.
Proof. vm_compute. eexists. reflexivity. Qed.

Lemma sockfd_socket_ignores_crefs_witness :
  s_crefs ex_socket_zero = 0%Z /\
  sockfd_socket 4 3 Z 5 (ex_kernel ex_fresh []) =
    Ret (Some (1%positive, 2)) (ex_kernel ex_fresh []) /\
  forall h,
    sockfd_socket 4 3 Z 5 (set_k_heap h (ex_kernel ex_fresh [])) =
      Ret (Some (1%positive, 2)) (set_k_heap h (ex_kernel ex_fresh [])).
Proof.
  apply (sockfd_socket_ignores_crefs 4 3 Z 0%Z 5
           (ex_kernel ex_fresh []) 1%positive (ex_list ex_fresh)).
  - vm_compute. split; [discriminate | reflexivity].
  - reflexivity.
  - reflexivity.
  - reflexivity.
Defined.

Lemma live_descriptors_distinct_witness :
  exists k' l',
    ex_run ex_ops [] (ex_kernel ex_fresh ex_waits) = Ret [5; 3; 4]%Z k' /\
    k_heap k' !! 1%positive = Some l' /\
    length (filter (fun s => s_crefs s <> 0%Z) (sl_sockets l')) <= 4 /\
    NoDup [5; 3; 4]%Z /\
    length [5; 3; 4]%Z <= 4.
Proof.
  assert (exists k', ex_run ex_ops [] (ex_kernel ex_fresh ex_waits)
                     = Ret [5; 3; 4]%Z k') as [k' Hrun].
  { vm_compute. eexists. reflexivity. }
  destruct (live_descriptors_distinct 4 3 Z 0%Z true ex_ops
              (ex_kernel ex_fresh ex_waits) k' 1%positive (ex_list ex_fresh)
              [5; 3; 4]%Z)
    as (l' & Hp & Hused & Hnd & Hlen & _).
  - exact ex_config_ok.
  - reflexivity.
  - reflexivity.
  - reflexivity.
  - repeat constructor; vm_compute; discriminate.
  - exact Hrun.
  - exists k', l'. split_and!; done.
Defined.

Lemma sockfd_allocate_lowest_free_witness :
  exists p l i s,
    k_sockets (ex_kernel ex_shared [SemOK]) = Some p /\
    k_heap (ex_kernel ex_shared [SemOK]) !! p = Some l /\
    i < 4 /\
    sl_sockets l !! i = Some s /\ s_crefs s = 0%Z /\
    (forall j s', j < i -> sl_sockets l !! j = Some s' -> s_crefs s' <> 0%Z) /\
    5%Z = (Z.of_nat i + 3)%Z.
Proof.
  assert (exists k', ex_allocate (ex_kernel ex_shared [SemOK]) = Ret 5%Z k')
    as [k' Hrun].
  { vm_compute. eexists. reflexivity. }
  apply (sockfd_allocate_lowest_free 4 3 Z 0%Z true
           (ex_kernel ex_shared [SemOK]) k' 5).
  - exact ex_config_ok.
  - exact Hrun.
  - discriminate.
Defined.

Lemma ex_shared_inv : list_inv 4 Z 0%Z (ex_list ex_shared).
Proof.
  split; [reflexivity|].
  intros [|[|[|[|i]]]] s Hs; cbn in Hs; try discriminate;
    injection Hs as <-; (split; [by vm_compute|]); cbn; (done || lia).
Qed.

Lemma sockfd_release_refcount_witness :
  (exists k',
     ex_release 4 (ex_kernel ex_shared [SemOK]) = Ret tt k' /\
     load_socket Z 1%positive 1 k' = Ret (mk_socket 1 7%Z) k') /\
  (exists k' k'',
     ex_release 3 (ex_kernel ex_shared [SemOK; SemOK]) = Ret tt k' /\
     ex_allocate k' = Ret 3%Z k'').
Proof.
  split.
  - destruct (sockfd_release_refcount 4 3 Z 0%Z true
                (ex_kernel ex_shared [SemOK]) 1%positive (ex_list ex_shared)
                0 [] 1 (mk_socket 2 7%Z))
      as (k' & Hrun & Hgt & _).
    + exact ex_config_ok.
    + reflexivity.
    + reflexivity.
    + reflexivity.
    + reflexivity.
    + reflexivity.
    + by vm_compute.
    + exists k'. split; [exact Hrun|].
      destruct Hgt as (_ & _ & Hload & _); [cbn; lia|exact Hload].
  - destruct (sockfd_release_refcount 4 3 Z 0%Z true
                (ex_kernel ex_shared [SemOK; SemOK]) 1%positive
                (ex_list ex_shared) 0 [SemOK] 0 (mk_socket 1 0%Z))
      as (k' & Hrun & _ & Hle).
    + exact ex_config_ok.
    + reflexivity.
    + reflexivity.
    + reflexivity.
    + reflexivity.
    + reflexivity.
    + by vm_compute.
    + destruct Hle as [_ Hnext]; [cbn; lia|].
      assert (acquires 0 [] k') as Htr.
      { vm_compute in Hrun. injection Hrun as <-. reflexivity. }
      destruct (Hnext 0 [] Htr) as (fd' & k'' & Hrun' & _ & Hsame).
      rewrite Hsame in Hrun' by (intros j s' Hj; lia).
      exists k', k''. split; [exact Hrun|exact Hrun'].
Defined.

Lemma net_releaselist_frees_at_zero_witness :
  exists k',
    net_releaselist Z 16 (Some 1%positive) (ex_kernel ex_fresh []) = Ret OK k' /\
    k_heap k' = delete 1%positive (k_heap (ex_kernel ex_fresh [])) /\
    k_log k' = [EvSemDestroy 1%positive; EvFree 1%positive].
Proof.
  destruct (net_releaselist_frees_at_zero 4 Z 0%Z 16
              (ex_kernel ex_fresh []) (ex_kernel ex_fresh []) 1%positive
              (ex_list ex_fresh))
    as [(k' & Hrun & _ & _ & Hle & _) _].
  - lia.
  - reflexivity.
  - cbn. lia.
  - exists k'. split; [exact Hrun|]. apply Hle. by vm_compute.
Defined.

(** Against C5 as the specification words it, the caller cannot tell the
    two failures apart: a caller without a list and a caller whose four slots are all
    in use get the same value, and errno is what it was in both. *)
Lemma allocate_failures_alike :
  k_sockets ex_nolist = None /\
  Forall (fun s : socket Z => s_crefs s <> 0%Z) ex_full /\
  ex_allocate ex_nolist = Ret ERROR ex_nolist /\
  ex_allocate (ex_kernel ex_full [SemOK]) = Ret ERROR (ex_kernel ex_full []) /\
  k_errno ex_nolist = k_errno (ex_kernel ex_full []).
Proof.
  split_and!; [reflexivity| |reflexivity|by vm_compute|reflexivity].
  repeat constructor; by vm_compute.
Qed.

Lemma sockfd_allocate_errors_witness :
  ex_allocate ex_nolist = Ret ERROR ex_nolist /\
  exists k',
    ex_allocate (ex_kernel ex_full [SemErr EINTR; SemOK]) = Ret ERROR k' /\
    k_heap k' = k_heap (ex_kernel ex_full [SemErr EINTR; SemOK]).
Proof.
  split.
  - apply (sockfd_allocate_errors 4 3 Z 0%Z true ex_nolist). reflexivity.
  - destruct (proj2 (sockfd_allocate_errors 4 3 Z 0%Z true
                       (ex_kernel ex_full [SemErr EINTR; SemOK]))
                1%positive (ex_list ex_full) 1 [])
      as (k' & Hrun & Hheap & _).
    + reflexivity.
    + reflexivity.
    + reflexivity.
    + reflexivity.
    + intros j s Hs. apply lookup_replicate_1 in Hs as [-> _]. by vm_compute.
    + exists k'. split; [exact Hrun|exact Hheap].
Defined.

Lemma sockfd_release_invalid_noop_witness :
  ex_release 99 (ex_kernel ex_shared []) = Ret tt (ex_kernel ex_shared []) /\
  exists k',
    ex_release 5 (ex_kernel ex_shared [SemOK]) = Ret tt k' /\
    k_heap k' = k_heap (ex_kernel ex_shared [SemOK]).
Proof.
  split.
  - apply (sockfd_release_invalid_noop 4 3 Z 0%Z true 99
             (ex_kernel ex_shared [])).
    vm_compute. intros [_ H]. discriminate H.
  - destruct (proj2 (sockfd_release_invalid_noop 4 3 Z 0%Z true 5
                       (ex_kernel ex_shared [SemOK]))
                1%positive (ex_list ex_shared) 0 [] ex_socket_zero)
      as (k' & Hrun & Hheap & _).
    + vm_compute. split; [discriminate|reflexivity].
    + reflexivity.
    + reflexivity.
    + exact ex_shared_inv.
    + reflexivity.
    + reflexivity.
    + reflexivity.
    + exists k'. split; [exact Hrun|exact Hheap].
Defined.

Lemma free_slots_zeroed_witness :
  exists k',
    ex_allocate (ex_kernel ex_fresh [SemOK]) = Ret 3%Z k' /\
    kernel_inv 4 Z 0%Z k'.
Proof.
  assert (exists k', ex_allocate (ex_kernel ex_fresh [SemOK]) = Ret 3%Z k')
    as [k' Hrun].
  { vm_compute. eexists. reflexivity. }
  destruct (free_slots_zeroed 4 3 Z 0%Z 16 true (ex_kernel ex_fresh [SemOK]))
    as (_ & _ & _ & Halloc & _).
  - apply ex_kernel_inv.
  - exists k'. split; [exact Hrun|]. by apply (Halloc 3%Z k').
Defined.

Lemma _net_semtake_retries_witness :
  exists fd k' k0',
    ex_allocate (ex_kernel ex_shared [SemErr EINTR; SemErr EINTR; SemOK])
      = Ret fd k' /\
    ex_allocate (ex_kernel ex_shared [SemOK]) = Ret fd k0' /\
    same_but_errno Z k' k0'.
Proof.
  destruct (_net_semtake_retries 4 3 Z 0%Z true
              (ex_kernel ex_shared [SemErr EINTR; SemErr EINTR; SemOK])
              1%positive (ex_list ex_shared) 2 [] 4)
    as (_ & _ & Halloc & _).
  - reflexivity.
  - reflexivity.
  - reflexivity.
  - reflexivity.
  - vm_compute. split; [discriminate|reflexivity].
  - exact Halloc.
Defined.

(** ** The further properties on the concrete table *)

Lemma net_alloclist_outcome_witness :
  exists r k',
    net_alloclist 4 Z 0%Z 16 (ex_kernel ex_fresh []) = Ret r k' /\
    (r = None <-> k_mem (ex_kernel ex_fresh []) = 0).
Proof.
  destruct (net_alloclist_outcome 4 Z 0%Z 16 (ex_kernel ex_fresh []))
    as (r & k' & Hrun & Hnone & _).
  - lia.
  - exists r, k'. split; [exact Hrun|exact Hnone].
Defined.

Lemma net_addref_release_roundtrip_witness :
  exists k1,
    net_addreflist Z 16 (Some 1%positive) (ex_kernel ex_fresh []) = Ret OK k1 /\
    net_releaselist Z 16 (Some 1%positive) k1 = Ret OK (ex_kernel ex_fresh []).
Proof.
  apply (net_addref_release_roundtrip Z 16 (ex_kernel ex_fresh []) 1%positive
           (ex_list ex_fresh)).
  - lia.
  - reflexivity.
  - cbn. lia.
  - by vm_compute.
Defined.

Lemma net_releaselist_countdown_witness :
  (exists k',
     repeat_call Z 2 (net_releaselist Z 16 (Some 1%positive)) ex_kernel3
       = Ret tt k' /\
     k_heap k' !! 1%positive = Some (mk_socketlist 1 1 ex_fresh) /\
     k_log k' = []) /\
  (exists k',
     repeat_call Z 3 (net_releaselist Z 16 (Some 1%positive)) ex_kernel3
       = Ret tt k' /\
     k_heap k' !! 1%positive = None /\
     k_log k' = [EvSemDestroy 1%positive; EvFree 1%positive]).
Proof.
  destruct (net_releaselist_countdown Z 16 ex_kernel3 1%positive
              (mk_socketlist 1 3 ex_fresh) 3 2)
    as [(k' & Hrun & Hp & Hlog & _) (k'' & Hrun' & Hp' & Hlog' & _)].
  - lia.
  - reflexivity.
  - reflexivity.
  - by vm_compute.
  - lia.
  - split.
    + exists k'. split_and!; [exact Hrun|exact Hp|exact Hlog].
    + exists k''. split_and!; [exact Hrun'|exact Hp'|exact Hlog'].
Defined.

Lemma sockfd_release_countdown_witness :
  exists k',
    repeat_call Z 3 (ex_release 4) (ex_kernel ex_shared (replicate 3 SemOK))
      = Ret tt k' /\
    k_heap k' !! 1%positive =
      Some (ex_list [mk_socket 1 0%Z; ex_socket_zero; ex_socket_zero;
                     ex_socket_zero]).
Proof.
  destruct (sockfd_release_countdown 4 3 Z 0%Z true
              (ex_kernel ex_shared (replicate 3 SemOK)) 1%positive
              (ex_list ex_shared) 1 (mk_socket 2 7%Z) 2 3 [])
    as (k' & Hrun & Hp & _).
  - exact ex_config_ok.
  - reflexivity.
  - reflexivity.
  - reflexivity.
  - reflexivity.
  - reflexivity.
  - lia.
  - by vm_compute.
  - reflexivity.
  - exists k'. split; [exact Hrun|exact Hp].
Defined.

Lemma sockfd_allocate_fills_table_witness :
  exists k1 k2,
    ex_run (replicate 4 OpAllocate) [] (ex_kernel ex_fresh (replicate 5 SemOK))
      = Ret [6; 5; 4; 3]%Z k1 /\
    ex_allocate k1 = Ret ERROR k2.
Proof.
  destruct (sockfd_allocate_fills_table 4 3 Z 0%Z true
              (ex_kernel ex_fresh (replicate 5 SemOK)) 1%positive
              (ex_list ex_fresh) [])
    as (k1 & k2 & Hrun & _ & Hfull & _).
  - exact ex_config_ok.
  - reflexivity.
  - reflexivity.
  - reflexivity.
  - reflexivity.
  - exists k1, k2. split; [exact Hrun|exact Hfull].
Defined.

Lemma sockfd_allocate_release_roundtrip_witness :
  exists k1 k2,
    ex_allocate (ex_kernel ex_shared [SemOK; SemOK]) = Ret 5%Z k1 /\
    ex_release 5 k1 = Ret tt k2 /\
    k_heap k2 = k_heap (ex_kernel ex_shared [SemOK; SemOK]).
Proof.
  assert (exists k1,
            ex_allocate (ex_kernel ex_shared [SemOK; SemOK]) = Ret 5%Z k1 /\
            acquires 0 [] k1) as (k1 & Hrun & Htr).
  { eexists. split; [vm_compute; reflexivity|reflexivity]. }
  destruct (sockfd_allocate_release_roundtrip 4 3 Z 0%Z true
              (ex_kernel ex_shared [SemOK; SemOK]) k1 1%positive
              (ex_list ex_shared) 5 0 [])
    as (k2 & Hrel & Hheap).
  - exact ex_config_ok.
  - reflexivity.
  - reflexivity.
  - exact ex_shared_inv.
  - exact Hrun.
  - discriminate.
  - exact Htr.
  - exists k1, k2. split_and!; [exact Hrun|exact Hrel|exact Hheap].
Defined.

Lemma sockfd_allocate_then_socket_witness :
  exists k' p i,
    ex_allocate (ex_kernel ex_shared [SemOK]) = Ret 5%Z k' /\
    sockfd_socket 4 3 Z 5 k' = Ret (Some (p, i)) k' /\
    5%Z = (Z.of_nat i + 3)%Z.
Proof.
  assert (exists k', ex_allocate (ex_kernel ex_shared [SemOK]) = Ret 5%Z k')
    as [k' Hrun].
  { vm_compute. eexists. reflexivity. }
  destruct (sockfd_allocate_then_socket 4 3 Z 0%Z true
              (ex_kernel ex_shared [SemOK]) k' 5)
    as (p & i & Hsock & _ & Hfd).
  - exact ex_config_ok.
  - exact Hrun.
  - discriminate.
  - exists k', p, i. split_and!; [exact Hrun|exact Hsock|exact Hfd].
Defined.

Lemma sockfd_socket_iff_witness :
  sockfd_socket 4 3 Z 5 (ex_kernel ex_fresh [])
    = Ret (Some (1%positive, 2)) (ex_kernel ex_fresh []) <->
  (5%Z = (Z.of_nat 2 + 3)%Z /\ 2 < 4).
Proof.
  apply (sockfd_socket_iff 4 3 Z (ex_kernel ex_fresh []) 1%positive 5 2).
  - exact ex_config_ok.
  - by vm_compute.
  - reflexivity.
Defined.

Lemma run_frame_witness :
  exists k',
    ex_run ex_ops [] (ex_kernel ex_fresh ex_waits) = Ret [5; 3; 4]%Z k' /\
    frame Z 1%positive (ex_kernel ex_fresh ex_waits) k'.
Proof.
  assert (exists k', ex_run ex_ops [] (ex_kernel ex_fresh ex_waits)
                     = Ret [5; 3; 4]%Z k') as [k' Hrun].
  { vm_compute. eexists. reflexivity. }
  exists k'. split; [exact Hrun|].
  apply (run_frame 4 3 Z 0%Z true ex_ops (ex_kernel ex_fresh ex_waits) k'
           1%positive [] [5; 3; 4]%Z).
  - reflexivity.
  - exact Hrun.
Defined.

Lemma sockfd_allocate_error_inv_witness :
  exists k',
    ex_allocate (ex_kernel ex_full [SemOK]) = Ret ERROR k' /\
    k_heap k' = k_heap (ex_kernel ex_full [SemOK]).
Proof.
  assert (exists k', ex_allocate (ex_kernel ex_full [SemOK]) = Ret ERROR k')
    as [k' Hrun].
  { vm_compute. eexists. reflexivity. }
  destruct (sockfd_allocate_error_inv 4 3 Z 0%Z true
              (ex_kernel ex_full [SemOK]) k') as [Hheap _].
  - exact ex_config_ok.
  - exact Hrun.
  - exists k'. split; [exact Hrun|exact Hheap].
Defined.


Lemma in_use_accounting_witness :
  exists k' l',
    ex_allocate (ex_kernel ex_shared [SemOK]) = Ret 5%Z k' /\
    k_heap k' !! 1%positive = Some l' /\
    in_use Z (sl_sockets l') = 3.
Proof.
  assert (exists k', ex_allocate (ex_kernel ex_shared [SemOK]) = Ret 5%Z k')
    as [k' Hrun].
  { vm_compute. eexists. reflexivity. }
  destruct (in_use_accounting 4 3 Z 0%Z true (ex_kernel ex_shared [SemOK])
              1%positive (ex_list ex_shared)) as [Halloc _].
  - reflexivity.
  - reflexivity.
  - destruct (Halloc 5%Z k' Hrun) as (l' & Hp & Hcount); [discriminate|].
    exists k', l'. split_and!; [exact Hrun|exact Hp|exact Hcount].
Defined.

Lemma one_slot_only_witness :
  exists k' l',
    ex_release 4 (ex_kernel ex_shared [SemOK]) = Ret tt k' /\
    k_heap k' !! 1%positive = Some l' /\
    sl_sockets l' !! 0 = Some (mk_socket 1 0%Z).
Proof.
  assert (exists k', ex_release 4 (ex_kernel ex_shared [SemOK]) = Ret tt k')
    as [k' Hrun].
  { vm_compute. eexists. reflexivity. }
  destruct (one_slot_only 4 3 Z 0%Z true (ex_kernel ex_shared [SemOK])
              1%positive (ex_list ex_shared)) as [_ Hrel].
  - exact ex_config_ok.
  - reflexivity.
  - reflexivity.
  - destruct (Hrel 4%Z k' Hrun) as (l' & Hp & Hsame).
    exists k', l'. split_and!; [exact Hrun|exact Hp|].
    rewrite Hsame; [reflexivity|]. by vm_compute.
Defined.
